(** * Tradutor Juridico: the session controller of [src/index.tsx]

    A shallow embedding of the state held by the [App] component and of its
    event handlers, followed by the properties the specification states about
    them.

    Conventions of the embedding.
    - A JavaScript string is the list of its UTF-16 code units ([jsstring]).
    - The React state variables, the [chatRef] reference and [localStorage]
      are the fields of one record, [World]; a handler is a function on it.
      A handler is invoked on a rendered state, so the values its closure
      captured are the fields of the world it is applied to.
    - The generative-language SDK is outside the program: what a call to it
      returns or throws is an argument of the handler ([Outcome]), and every
      request handed to it is appended to the field [calls].
    - An [async] handler is split at its [await]: [_start] is the synchronous
      prefix, [_settle] the continuation with [catch] and [finally]; the
      handler proper runs both with nothing in between.
    - [JSON.parse] and [JSON.stringify] belong to the platform and are the
      methods of the class [JSON]; the theorems hold for every instance.
    - The file upload handlers (lines 206-257) and the markup touch none of
      the state below except [error], and are left out. *)

From Stdlib Require Import ZArith Floats.
From stdpp Require Import gmap strings list pretty.

Open Scope Z_scope.

(** ** JavaScript strings *)

(** A string value: its UTF-16 code units, in order. *)
Definition jsstring : Type := list N.

(** Code units of the text whose UTF-8 encoding is [bs] (sequences of one to
    four bytes; a four-byte sequence gives a surrogate pair).  Used to write
    the string literals of the source. *)
Fixpoint utf16_of_bytes (bs : list N) : jsstring :=
  match bs with
  | [] => []
  | b0 :: r0 =>
    if (b0 <? 128)%N then b0 :: utf16_of_bytes r0
    else match r0 with
    | [] => [b0]
    | b1 :: r1 =>
      if (b0 <? 224)%N then
        ((b0 - 192) * 64 + (b1 - 128))%N :: utf16_of_bytes r1
      else match r1 with
      | [] => [b0; b1]
      | b2 :: r2 =>
        if (b0 <? 240)%N then
          ((b0 - 224) * 4096 + (b1 - 128) * 64 + (b2 - 128))%N
            :: utf16_of_bytes r2
        else match r2 with
        | [] => [b0; b1; b2]
        | b3 :: r3 =>
          let cp := ((b0 - 240) * 262144 + (b1 - 128) * 4096
                     + (b2 - 128) * 64 + (b3 - 128))%N in
          (55296 + (cp - 65536) / 1024)%N
            :: (56320 + (cp - 65536) mod 1024)%N :: utf16_of_bytes r3
        end
      end
    end
  end.

Definition utf16 (s : string) : jsstring :=
  utf16_of_bytes (Ascii.N_of_ascii <$> String.list_ascii_of_string s).

(** ECMA-262 WhiteSpace and LineTerminator code points: what
    [String.prototype.trim] strips.  All lie in the basic plane, so each is
    one code unit. *)
Definition is_white_space (c : N) : bool :=
  bool_decide (c ∈ [9; 10; 11; 12; 13; 32; 160; 5760; 8232; 8233; 8239;
                    8287; 12288; 65279]%N)
  || ((8192 <=? c)%N && (c <=? 8202)%N).

Fixpoint trimStart (s : jsstring) : jsstring :=
  match s with
  | c :: r => if is_white_space c then trimStart r else s
  | [] => []
  end.

(** [s.trim()] *)
Definition trim (s : jsstring) : jsstring :=
  reverse (trimStart (reverse (trimStart s))).

(** Truthiness of a string: every string but the empty one. *)
Definition truthy (s : jsstring) : bool := negb (bool_decide (s = [])).

(** [n.toString()] of an integral number, in the range where JavaScript
    prints one in plain decimal (magnitude below 10^21). *)
Definition toString (n : Z) : jsstring := utf16 (pretty n).

(** ** Data model (lines 6-24) *)

Inductive View := home | result_view.

Record Jurimetrics := {
  probabilityOfSuccess : float;
  estimatedDuration : jsstring;
  positiveFactors : list jsstring;
  negativeFactors : list jsstring
}.

Record TranslationResult := {
  id : jsstring;
  timestamp : Z;
  translation : jsstring;
  summaryPoints : list jsstring;
  originalText : jsstring;
  jurimetrics : Jurimetrics
}.

Inductive Role := user | model.

Record ChatMessage := { role : Role; text : jsstring }.

(** The SDK's [Chat] object, as far as the program determines it: the
    configuration it was created with. *)
Record Chat := { chat_model : jsstring; systemInstruction : jsstring }.

(** ** The collaborator *)

(** How a call into the SDK ends: it returns (its promise fulfils) with a
    value, or it throws (its promise rejects). *)
Inductive Outcome (A : Type) :=
  | Fulfilled (a : A)
  | Rejected.
Arguments Fulfilled {A} a.
Arguments Rejected {A}.

(** A request handed to the SDK. *)
Inductive Request :=
  | GenerateContent (model_name prompt : jsstring)
  | ChatsCreate (config : Chat)
  | SendMessage (chat : Chat) (message : jsstring).

(** ** Platform JSON *)

(** [JSON.stringify] on a history, and [JSON.parse] read at the two types
    the program uses its result at: the stored history (line 58) and the
    object the response schema of lines 101-125 describes (line 128).
    [None] is a thrown [SyntaxError].  The program checks no parsed value
    against its type. *)
Class JSON := {
  JSON_stringify : list TranslationResult → jsstring;
  JSON_parse_history : jsstring → option (list TranslationResult);
  JSON_parse_result : jsstring → option TranslationResult
}.

(** ** The state of [App] (lines 29-51) *)

Record World := {
  view : View;
  inputText : jsstring;
  isLoading : bool;
  error : jsstring;
  result : option TranslationResult;
  translationHistory : list TranslationResult;
  isChatOpen : bool;
  chatHistory : list ChatMessage;
  chatInput : jsstring;
  chatRef : option Chat;
  localStorage : gmap jsstring jsstring;
  calls : list Request
}.

(** The state at mount, over the storage the browser holds. *)
Definition initial (storage : gmap jsstring jsstring) : World :=
  {| view := home; inputText := []; isLoading := false; error := [];
     result := None; translationHistory := []; isChatOpen := false;
     chatHistory := []; chatInput := []; chatRef := None;
     localStorage := storage; calls := [] |}.

(** A handler, and the sequencing of statements. *)
Definition Handler : Type := World → World.

Definition andThen (f g : Handler) : Handler := fun w => g (f w).
Notation "f >> g" := (andThen f g) (at level 61, left associativity).

(** *** State setters *)

Definition setView (v : View) : Handler := fun w =>
  {| view := v; inputText := inputText w; isLoading := isLoading w;
     error := error w; result := result w;
     translationHistory := translationHistory w; isChatOpen := isChatOpen w;
     chatHistory := chatHistory w; chatInput := chatInput w;
     chatRef := chatRef w; localStorage := localStorage w; calls := calls w |}.

Definition setInputText (s : jsstring) : Handler := fun w =>
  {| view := view w; inputText := s; isLoading := isLoading w;
     error := error w; result := result w;
     translationHistory := translationHistory w; isChatOpen := isChatOpen w;
     chatHistory := chatHistory w; chatInput := chatInput w;
     chatRef := chatRef w; localStorage := localStorage w; calls := calls w |}.

Definition setIsLoading (b : bool) : Handler := fun w =>
  {| view := view w; inputText := inputText w; isLoading := b;
     error := error w; result := result w;
     translationHistory := translationHistory w; isChatOpen := isChatOpen w;
     chatHistory := chatHistory w; chatInput := chatInput w;
     chatRef := chatRef w; localStorage := localStorage w; calls := calls w |}.

Definition setError (s : jsstring) : Handler := fun w =>
  {| view := view w; inputText := inputText w; isLoading := isLoading w;
     error := s; result := result w;
     translationHistory := translationHistory w; isChatOpen := isChatOpen w;
     chatHistory := chatHistory w; chatInput := chatInput w;
     chatRef := chatRef w; localStorage := localStorage w; calls := calls w |}.

Definition setResult (r : option TranslationResult) : Handler := fun w =>
  {| view := view w; inputText := inputText w; isLoading := isLoading w;
     error := error w; result := r;
     translationHistory := translationHistory w; isChatOpen := isChatOpen w;
     chatHistory := chatHistory w; chatInput := chatInput w;
     chatRef := chatRef w; localStorage := localStorage w; calls := calls w |}.

Definition setTranslationHistory (h : list TranslationResult) : Handler :=
  fun w =>
  {| view := view w; inputText := inputText w; isLoading := isLoading w;
     error := error w; result := result w;
     translationHistory := h; isChatOpen := isChatOpen w;
     chatHistory := chatHistory w; chatInput := chatInput w;
     chatRef := chatRef w; localStorage := localStorage w; calls := calls w |}.

Definition setIsChatOpen (b : bool) : Handler := fun w =>
  {| view := view w; inputText := inputText w; isLoading := isLoading w;
     error := error w; result := result w;
     translationHistory := translationHistory w; isChatOpen := b;
     chatHistory := chatHistory w; chatInput := chatInput w;
     chatRef := chatRef w; localStorage := localStorage w; calls := calls w |}.

Definition setChatHistory (h : list ChatMessage) : Handler := fun w =>
  {| view := view w; inputText := inputText w; isLoading := isLoading w;
     error := error w; result := result w;
     translationHistory := translationHistory w; isChatOpen := isChatOpen w;
     chatHistory := h; chatInput := chatInput w;
     chatRef := chatRef w; localStorage := localStorage w; calls := calls w |}.

Definition setChatInput (s : jsstring) : Handler := fun w =>
  {| view := view w; inputText := inputText w; isLoading := isLoading w;
     error := error w; result := result w;
     translationHistory := translationHistory w; isChatOpen := isChatOpen w;
     chatHistory := chatHistory w; chatInput := s;
     chatRef := chatRef w; localStorage := localStorage w; calls := calls w |}.

(** [chatRef.current = c] *)
Definition set_chatRef (c : option Chat) : Handler := fun w =>
  {| view := view w; inputText := inputText w; isLoading := isLoading w;
     error := error w; result := result w;
     translationHistory := translationHistory w; isChatOpen := isChatOpen w;
     chatHistory := chatHistory w; chatInput := chatInput w;
     chatRef := c; localStorage := localStorage w; calls := calls w |}.

Definition set_localStorage (s : gmap jsstring jsstring) : Handler := fun w =>
  {| view := view w; inputText := inputText w; isLoading := isLoading w;
     error := error w; result := result w;
     translationHistory := translationHistory w; isChatOpen := isChatOpen w;
     chatHistory := chatHistory w; chatInput := chatInput w;
     chatRef := chatRef w; localStorage := s; calls := calls w |}.

(** Hands [r] to the SDK. *)
Definition invoke (r : Request) : Handler := fun w =>
  {| view := view w; inputText := inputText w; isLoading := isLoading w;
     error := error w; result := result w;
     translationHistory := translationHistory w; isChatOpen := isChatOpen w;
     chatHistory := chatHistory w; chatInput := chatInput w;
     chatRef := chatRef w; localStorage := localStorage w;
     calls := calls w ++ [r] |}.

(** *** [localStorage] *)

Definition localStorage_setItem (k v : jsstring) : Handler := fun w =>
  set_localStorage (<[k := v]> (localStorage w)) w.

Definition localStorage_removeItem (k : jsstring) : Handler := fun w =>
  set_localStorage (delete k (localStorage w)) w.

Definition localStorage_getItem (k : jsstring) (w : World) : option jsstring :=
  localStorage w !! k.

(** ** String constants of the source *)

Definition HISTORY_KEY : jsstring := utf16 "translationHistory".

Definition MODEL_NAME : jsstring := utf16 "gemini-2.5-flash".

Definition MSG_EMPTY_INPUT : jsstring :=
  utf16 "Por favor, insira um texto para traduzir.".

Definition MSG_TRANSLATE_FAILED : jsstring :=
  utf16 "Ocorreu um erro ao traduzir o texto. Tente novamente.".

Definition MSG_CHAT_START_FAILED : jsstring :=
  utf16 "Desculpe, não consegui iniciar o chat. Tente novamente.".

Definition MSG_CHAT_SEND_FAILED : jsstring :=
  utf16 "Desculpe, não consegui processar sua pergunta. Tente novamente.".

(** The template literal of line 93, over the text it embeds. *)
Definition translatePrompt (input : jsstring) : jsstring :=
  utf16 "O seguinte texto é um trecho de um documento jurídico brasileiro. Analise-o e forneça: 1. Uma 'translation' (tradução) para português coloquial e simples, mantendo a formatação original. 2. 'summaryPoints' (pontos principais) em uma lista. 3. Uma 'jurimetrics' (análise jurimétrica) simulada, contendo: 'probabilityOfSuccess' (um número de 0 a 100), 'estimatedDuration' (uma string, ex: '6-12 meses'), 'positiveFactors' (lista de fatores positivos), e 'negativeFactors' (lista de fatores negativos)."
  ++ [10; 10]%N ++ utf16 "Texto: " ++ [34]%N ++ input ++ [34]%N.

(** [`${result?.originalText}`] and [`${result?.translation}`]: the field of
    the current result, or the text [undefined] when there is none. *)
Definition interpolate (f : TranslationResult → jsstring)
    (r : option TranslationResult) : jsstring :=
  match r with
  | Some x => f x
  | None => utf16 "undefined"
  end.

(** The template literal of line 166. *)
Definition chatSystemInstruction (r : option TranslationResult) : jsstring :=
  utf16 "Você é 'Lex', um assistente de IA especializado em direito processual brasileiro. Sua missão é ajudar cidadãos leigos a entenderem seus processos judiciais. Use um tom empático e claro. Baseie respostas em probabilidades e estimativas de tempo (simulando dados de jurimetria), sempre deixando claro que são estimativas. O contexto é o texto: '"
  ++ interpolate originalText r ++ utf16 "', traduzido como: '"
  ++ interpolate translation r ++ utf16 "'.".

(** Line 170. *)
Definition firstPrompt : jsstring :=
  utf16 "Baseado no texto jurídico que analisei, inicie a conversa de forma proativa. Por exemplo, pergunte se quero saber os próximos passos ou as chances de um resultado favorável. Seja breve e amigável.".

(** ** Handlers *)

Section Handlers.

Context `{JSON}.

(** *** History load at mount (lines 54-64) *)

Definition loadHistory : Handler := fun w =>
  match localStorage_getItem HISTORY_KEY w with
  | Some storedHistory =>
    if truthy storedHistory then
      match JSON_parse_history storedHistory with
      | Some parsed => setTranslationHistory parsed w
      | None => localStorage_removeItem HISTORY_KEY w
      end
    else w
  | None => w
  end.

(** The application once mounted over [storage]. *)
Definition startup (storage : gmap jsstring jsstring) : World :=
  loadHistory (initial storage).

(** *** [handleGoHome] (lines 73-81) *)

Definition handleGoHome : Handler :=
  setView home >> setResult None >> setChatHistory [] >> setError []
  >> setIsChatOpen false >> set_chatRef None.

(** *** [handleTranslate] (lines 83-150) *)

(** Lines 129-134: the parsed response spread into a new object, with
    [originalText], [id] and [timestamp] set after the spread.  [now1] and
    [now2] are the two readings of [Date.now()]. *)
Definition newResult (parsedResult : TranslationResult)
    (input : jsstring) (now1 now2 : Z) : TranslationResult :=
  {| translation := translation parsedResult;
     summaryPoints := summaryPoints parsedResult;
     jurimetrics := jurimetrics parsedResult;
     originalText := input;
     id := toString now1;
     timestamp := now2 |}.

(** Lines 137-141: the updater passed to [setTranslationHistory]. *)
Definition recordHistory (r : TranslationResult) : Handler := fun w =>
  let updatedHistory := take 50 (r :: translationHistory w) in
  (localStorage_setItem HISTORY_KEY (JSON_stringify updatedHistory)
   >> setTranslationHistory updatedHistory) w.

(** Lines 84-127, up to the [await]: the new state, and the captured
    [inputText] when a request went out. *)
Definition handleTranslate_start (w : World) : World * option jsstring :=
  if negb (truthy (trim (inputText w))) then
    (setError MSG_EMPTY_INPUT w, None)
  else
    ((setIsLoading true >> setError [] >> setResult None
      >> invoke (GenerateContent MODEL_NAME (translatePrompt (inputText w)))) w,
     Some (inputText w)).

(** Lines 144-146. *)
Definition handleTranslate_catch : Handler :=
  setError MSG_TRANSLATE_FAILED.

(** Lines 128-149, from the settled promise on. *)
Definition handleTranslate_settle (input : jsstring) (now1 now2 : Z)
    (response : Outcome jsstring) : Handler :=
  match response with
  | Fulfilled response_text =>
    match JSON_parse_result response_text with
    | Some parsedResult =>
      let r := newResult parsedResult input now1 now2 in
      setResult (Some r) >> recordHistory r >> setView result_view
    | None => handleTranslate_catch
    end
  | Rejected => handleTranslate_catch
  end
  >> setIsLoading false.

Definition handleTranslate (now1 now2 : Z) (response : Outcome jsstring)
    : Handler := fun w =>
  match handleTranslate_start w with
  | (w1, Some input) => handleTranslate_settle input now1 now2 response w1
  | (w1, None) => w1
  end.

(** *** [handleStartChat] (lines 152-179) *)

(** Lines 173-175, the [catch] block. *)
Definition handleStartChat_catch : Handler :=
  setChatHistory [ {| role := model; text := MSG_CHAT_START_FAILED |} ].

(** Lines 164-167: the argument of [ai.chats.create]. *)
Definition chatConfig (r : option TranslationResult) : Chat :=
  {| chat_model := MODEL_NAME;
     systemInstruction := chatSystemInstruction r |}.

(** Line 155: a session exists and has messages. *)
Definition handleStartChat_reuses (w : World) : bool :=
  bool_decide (is_Some (chatRef w))
  && bool_decide (0 < length (chatHistory w))%nat.

(** Lines 153-171, up to the [await]; [created] is how [ai.chats.create]
    ends.  The guard and the template read the rendered state [w].  The
    second component tells whether the seed prompt is awaited. *)
Definition handleStartChat_start (created : Outcome unit) (w : World)
    : World * bool :=
  let w1 := setIsChatOpen true w in
  if handleStartChat_reuses w then (w1, false)
  else
    let config := chatConfig (result w) in
    let w2 := (setIsLoading true >> setChatHistory []
               >> invoke (ChatsCreate config)) w1 in
    match created with
    | Fulfilled _ =>
      ((set_chatRef (Some config)
        >> invoke (SendMessage config firstPrompt)) w2, true)
    | Rejected =>
      ((handleStartChat_catch >> setIsLoading false) w2, false)
    end.

(** Lines 172-178, from the settled promise on. *)
Definition handleStartChat_settle (response : Outcome jsstring) : Handler :=
  match response with
  | Fulfilled response_text =>
    setChatHistory [ {| role := model; text := response_text |} ]
  | Rejected => handleStartChat_catch
  end
  >> setIsLoading false.

Definition handleStartChat (created : Outcome unit)
    (response : Outcome jsstring) : Handler := fun w =>
  match handleStartChat_start created w with
  | (w1, true) => handleStartChat_settle response w1
  | (w1, false) => w1
  end.

(** *** [handleCloseChat] (line 181) *)

Definition handleCloseChat : Handler := setIsChatOpen false.

(** *** [handleSendMessage] (lines 183-204) *)

(** Lines 195-203, from the settled promise on; both [setChatHistory] calls
    take an updater. *)
Definition handleSendMessage_settle (response : Outcome jsstring)
    : Handler := fun w =>
  (match response with
   | Fulfilled response_text =>
     let modelMessage := {| role := model; text := response_text |} in
     setChatHistory (chatHistory w ++ [modelMessage])
   | Rejected =>
     let errorMessage := {| role := model; text := MSG_CHAT_SEND_FAILED |} in
     setChatHistory (chatHistory w ++ [errorMessage])
   end
   >> setIsLoading false) w.

(** Line 185: the conditions under which the handler returns at once. *)
Definition handleSendMessage_ignores (w : World) : bool :=
  negb (truthy (trim (chatInput w))) || isLoading w
  || negb (bool_decide (is_Some (chatRef w))).

(** Lines 185-194, up to the [await].  Past the guard [chatRef.current] is
    a session; on [null] the member access would throw inside the [try]. *)
Definition handleSendMessage_start (w : World) : World * bool :=
  if handleSendMessage_ignores w then (w, false)
  else
    let userMessage := {| role := user; text := chatInput w |} in
    let currentChatInput := chatInput w in
    let w1 := (setChatHistory (chatHistory w ++ [userMessage])
               >> setChatInput [] >> setIsLoading true) w in
    match chatRef w with
    | Some chat => (invoke (SendMessage chat currentChatInput) w1, true)
    | None => (handleSendMessage_settle Rejected w1, false)
    end.

Definition handleSendMessage (response : Outcome jsstring) : Handler :=
  fun w =>
  match handleSendMessage_start w with
  | (w1, true) => handleSendMessage_settle response w1
  | (w1, false) => w1
  end.

(** *** [handleClearHistory] (lines 260-263) *)

Definition handleClearHistory : Handler :=
  setTranslationHistory [] >> localStorage_removeItem HISTORY_KEY.

(** *** [handleViewHistoryItem] (lines 265-272) *)

Definition handleViewHistoryItem (item : TranslationResult) : Handler :=
  setResult (Some item) >> setIsChatOpen false >> setChatHistory []
  >> set_chatRef None >> setView result_view.

End Handlers.

(** ** Runs *)

Section Runs.

Context `{JSON}.

(** What the translation collaborator's answer parses to; [None] when the
    call was rejected or its text is not JSON. *)
Definition parsedResponse (response : Outcome jsstring)
    : option TranslationResult :=
  match response with
  | Fulfilled response_text => JSON_parse_result response_text
  | Rejected => None
  end.

(** One use of the home page: the user types [sub_text] and presses the
    translate button; the collaborator answers [sub_response] and the clock
    reads [sub_now1], then [sub_now2]. *)
Record Submission := {
  sub_text : jsstring;
  sub_now1 : Z;
  sub_now2 : Z;
  sub_response : jsstring
}.

Definition submit (s : Submission) : Handler :=
  setInputText (sub_text s)
  >> handleTranslate (sub_now1 s) (sub_now2 s) (Fulfilled (sub_response s)).

(** The result a submission creates when its response parses. *)
Definition created (s : Submission) : option TranslationResult :=
  (fun parsedResult =>
     newResult parsedResult (sub_text s) (sub_now1 s) (sub_now2 s))
  <$> JSON_parse_result (sub_response s).

(** A submission that passes validation and whose response parses. *)
Definition successful (s : Submission) : Prop :=
  trim (sub_text s) ≠ [] ∧ is_Some (JSON_parse_result (sub_response s)).

Definition run (ss : list Submission) (w : World) : World :=
  foldl (fun w s => submit s w) w ss.

End Runs.

(** Whether [r] is the seed prompt of a chat session (line 171). *)
Definition isSeedPrompt (r : Request) : bool :=
  match r with
  | SendMessage _ message => bool_decide (message = firstPrompt)
  | _ => false
  end.


(** ** An instance of the platform, for the examples

    [Sample.json] knows JavaScript's [JSON.parse] on two texts (a response of
    the collaborator and a stored history of one entry) and on the empty
    array, and rejects every other text; the texts it rejects in the examples
    below (the empty text, an opening brace, a plain sentence) are texts
    [JSON.parse] throws on.  It prints a history as the array of its [id]s:
    the examples never read what was printed. *)

Module Sample.

Definition quoted (s : string) : jsstring := [34]%N ++ utf16 s ++ [34]%N.

(** The fields a response carries; [id], [timestamp] and [originalText] are
    absent from it (they are overwritten by [newResult]). *)
Definition parsed : TranslationResult :=
  {| id := []; timestamp := 0; originalText := [];
     translation := utf16 "O juiz negou o pedido urgente.";
     summaryPoints := [utf16 "O pedido liminar foi negado."];
     jurimetrics :=
       {| probabilityOfSuccess := 35%float;
          estimatedDuration := utf16 "6-12 meses";
          positiveFactors := [];
          negativeFactors := [utf16 "Liminar indeferida"] |} |}.

Definition content_text : jsstring :=
  quoted "translation" ++ utf16 ":" ++ quoted "O juiz negou o pedido urgente."
  ++ utf16 "," ++ quoted "summaryPoints" ++ utf16 ":["
  ++ quoted "O pedido liminar foi negado." ++ utf16 "],"
  ++ quoted "jurimetrics" ++ utf16 ":{" ++ quoted "probabilityOfSuccess"
  ++ utf16 ":35," ++ quoted "estimatedDuration" ++ utf16 ":"
  ++ quoted "6-12 meses" ++ utf16 "," ++ quoted "positiveFactors"
  ++ utf16 ":[]," ++ quoted "negativeFactors" ++ utf16 ":["
  ++ quoted "Liminar indeferida" ++ utf16 "]}".

(** A well-formed response of the translation collaborator. *)
Definition response_text : jsstring := utf16 "{" ++ content_text ++ utf16 "}".

Definition input : jsstring := utf16 "  Vistos. Indefiro o pedido liminar. ".

Definition item : TranslationResult :=
  {| id := utf16 "1730000000000"; timestamp := 1730000000000;
     originalText := input;
     translation := translation parsed;
     summaryPoints := summaryPoints parsed;
     jurimetrics := jurimetrics parsed |}.

(** The text the program stores for the history [[item]]. *)
Definition history_text : jsstring :=
  utf16 "[{" ++ content_text ++ utf16 "," ++ quoted "originalText"
  ++ utf16 ":" ++ quoted "  Vistos. Indefiro o pedido liminar. " ++ utf16 ","
  ++ quoted "id" ++ utf16 ":" ++ quoted "1730000000000" ++ utf16 ","
  ++ quoted "timestamp" ++ utf16 ":1730000000000}]".

Fixpoint join (sep : jsstring) (parts : list jsstring) : jsstring :=
  match parts with
  | [] => []
  | [p] => p
  | p :: rest => p ++ sep ++ join sep rest
  end.

Definition stringify (h : list TranslationResult) : jsstring :=
  utf16 "[" ++ join (utf16 ",") ((fun r => [34]%N ++ id r ++ [34]%N) <$> h)
  ++ utf16 "]".

Definition parse_history (s : jsstring) : option (list TranslationResult) :=
  if bool_decide (s = utf16 "[]") then Some []
  else if bool_decide (s = history_text) then Some [item]
  else None.

Definition parse_result (s : jsstring) : option TranslationResult :=
  if bool_decide (s = response_text) then Some parsed else None.

Definition json : JSON :=
  {| JSON_stringify := stringify;
     JSON_parse_history := parse_history;
     JSON_parse_result := parse_result |}.

(** A result page with nothing in flight and no chat session. *)
Definition viewing : World :=
  {| view := result_view; inputText := input; isLoading := false;
     error := []; result := Some item; translationHistory := [item];
     isChatOpen := false; chatHistory := []; chatInput := [];
     chatRef := None; localStorage := {[ HISTORY_KEY := history_text ]};
     calls := [] |}.

(** The home page with a draft typed in. *)
Definition drafting : World := setInputText input (initial ∅).

Definition session : Chat := chatConfig (Some item).

(** A result page whose chat session is established and idle. *)
Definition chatting : World :=
  {| view := result_view; inputText := input; isLoading := false;
     error := []; result := Some item; translationHistory := [item];
     isChatOpen := true;
     chatHistory := [ {| role := model; text := utf16 "Posso ajudar?" |} ];
     chatInput := utf16 "Qual o prazo?";
     chatRef := Some session;
     localStorage := {[ HISTORY_KEY := history_text ]};
     calls := [ChatsCreate session; SendMessage session firstPrompt] |}.

(** The [n]-th of a series of submissions of the same text. *)
Definition submission (n : nat) : Submission :=
  {| sub_text := input;
     sub_now1 := 1730000000000 + Z.of_nat n;
     sub_now2 := 1730000000000 + Z.of_nat n;
     sub_response := response_text |}.

Definition submissions : list Submission := submission <$> seq 0 51.

End Sample.

(** * The rest of the page

    The functions of [src/index.tsx] beside the session controller: the
    rendering of chat replies, the file intake, and the page as the browser
    drives it, one event at a time, with the promises of the [async] handlers
    settling in any order. *)

(** ** Rendering of replies: [parseBoldMarkdown] (lines 540-549) *)

(** [s.startsWith(p)] *)
Fixpoint startsWith (p s : jsstring) : bool :=
  match p, s with
  | [], _ => true
  | a :: p', b :: s' => bool_decide (a = b) && startsWith p' s'
  | _ :: _, [] => false
  end.


(** [s.split(separator)] for a separator that is not empty: the parts
    between the occurrences of the separator, found from the left and not
    overlapping.  [skip] counts the code units of the occurrence just found
    that are still to be passed over; [part] is the part read so far. *)
Fixpoint split_from (separator : jsstring) (skip : nat) (part s : jsstring)
    : list jsstring :=
  match s with
  | [] => [part]
  | c :: rest =>
    match skip with
    | S k => split_from separator k part rest
    | O =>
      if startsWith separator s
      then part :: split_from separator (length separator - 1) [] rest
      else split_from separator 0 (part ++ [c]) rest
    end
  end.

Definition split (separator s : jsstring) : list jsstring :=
  split_from separator 0 [] s.

(** [parts.join(separator)] *)
Fixpoint joinWith (separator : jsstring) (parts : list jsstring) : jsstring :=
  match parts with
  | [] => []
  | [p] => p
  | p :: rest => p ++ separator ++ joinWith separator rest
  end.

(** What the function returns for one part: the part itself, or a [strong]
    element with its [key] around it. *)
Inductive Node :=
  | PlainText (s : jsstring)
  | Strong (key : nat) (children : jsstring).

Definition BOLD_MARK : jsstring := utf16 "**".

(** Lines 540-549; [None] is [null]. *)
Definition parseBoldMarkdown (text : jsstring) : option (list Node) :=
  if negb (truthy text) then None
  else
    let parts := split BOLD_MARK text in
    Some (imap (fun index part =>
                  if bool_decide (index mod 2 = 1)%nat then Strong index part
                  else PlainText part) parts).

Definition nodeText (n : Node) : jsstring :=
  match n with
  | PlainText s => s
  | Strong _ s => s
  end.


(** [p] occurs in [s]. *)
Definition contains (p s : jsstring) : Prop := ∃ l1 l2, s = l1 ++ p ++ l2.

(** ** Conversations *)

(** The user types [turn.1] into the chat box and submits; the collaborator
    ends the call with [turn.2]. *)
Definition exchange (turn : jsstring * Outcome jsstring) : Handler :=
  setChatInput turn.1 >> handleSendMessage turn.2.

Definition converse (turns : list (jsstring * Outcome jsstring)) (w : World)
    : World :=
  foldl (fun w turn => exchange turn w) w turns.

(** The message lines 195-200 append for a settled call. *)
Definition replyMessage (response : Outcome jsstring) : ChatMessage :=
  match response with
  | Fulfilled response_text => {| role := model; text := response_text |}
  | Rejected => {| role := model; text := MSG_CHAT_SEND_FAILED |}
  end.

(** What a turn adds to the messages, and what it sends. *)
Definition transcript (turn : jsstring * Outcome jsstring) : list ChatMessage :=
  if truthy (trim turn.1)
  then [ {| role := user; text := turn.1 |}; replyMessage turn.2 ]
  else [].

Definition requests (chat : Chat) (turn : jsstring * Outcome jsstring)
    : list Request :=
  if truthy (trim turn.1) then [SendMessage chat turn.1] else [].

(** ** File intake (lines 41-45, 206-257) *)

(** The fields of a [File] the handler reads. *)
Record File := { file_name : jsstring; file_type : jsstring; file_size : N }.

(** The upload state of [App], with what the browser holds for it: the
    intervals still running ([intervals]), the number of completion
    callbacks still to run ([timeouts]) and the alerts shown ([alerts]). *)
Record Intake := {
  isUploadingFile : bool;
  uploadProgress : float;
  selectedFile : option File;
  uploadIntervalRef : option positive;
  intervals : gset positive;
  timeouts : nat;
  alerts : list jsstring
}.

(** The whole state of the page. *)
Record Page := { core : World; intake : Intake }.

(** Lines 42-45: the upload state at mount, with no timer running. *)
Definition idle : Intake :=
  {| isUploadingFile := false; uploadProgress := 0%float;
     selectedFile := None; uploadIntervalRef := None;
     intervals := ∅; timeouts := 0; alerts := [] |}.

Definition MSG_NOT_PDF : jsstring :=
  utf16 "Por favor, selecione um arquivo PDF válido.".

Definition MSG_TOO_LARGE : jsstring :=
  utf16 "O arquivo excede o limite de 10MB.".

Definition MSG_NOT_IMPLEMENTED : jsstring :=
  utf16 "O processamento de PDF ainda não foi implementado. Por favor, cole o texto na caixa.".

Definition PDF_TYPE : jsstring := utf16 "application/pdf".

(** Line 215: [10 * 1024 * 1024]. *)
Definition SIZE_LIMIT : N := 10 * 1024 * 1024.

(** A handler of the session controller, on the page. *)
Definition in_app (h : Handler) (p : Page) : Page :=
  {| core := h (core p); intake := intake p |}.

(** [clearInterval(i)] *)
Definition clearInterval (i : positive) (p : Page) : Page :=
  {| core := core p;
     intake :=
       {| isUploadingFile := isUploadingFile (intake p);
          uploadProgress := uploadProgress (intake p);
          selectedFile := selectedFile (intake p);
          uploadIntervalRef := uploadIntervalRef (intake p);
          intervals := intervals (intake p) ∖ {[i]};
          timeouts := timeouts (intake p);
          alerts := alerts (intake p) |} |}.

(** Lines 206-247.  [files] is [e.target.files?.[0]] and [timer] the handle
    [window.setInterval] returns; the reset of the input element is left
    out. *)
Definition handleFileChange (files : option File) (timer : positive)
    (p : Page) : Page :=
  match files with
  | None => p
  | Some file =>
    if negb (bool_decide (file_type file = PDF_TYPE)) then
      in_app (setError MSG_NOT_PDF) p
    else if (SIZE_LIMIT <? file_size file)%N then
      in_app (setError MSG_TOO_LARGE) p
    else
      {| core := setError [] (core p);
         intake :=
           {| selectedFile := Some file;
              isUploadingFile := true;
              uploadProgress := 0%float;
              uploadIntervalRef := Some timer;
              intervals := {[timer]} ∪ intervals (intake p);
              timeouts := timeouts (intake p);
              alerts := alerts (intake p) |} |}
  end.

(** Lines 226-243: one run of the interval's callback, [random] being the
    value of [Math.random()]. *)
Definition uploadTick (random : float) (p : Page) : Page :=
  let newProgress := (uploadProgress (intake p) + random * 20)%float in
  if (100 <=? newProgress)%float then
    let p1 := match uploadIntervalRef (intake p) with
              | Some i => clearInterval i p
              | None => p
              end in
    {| core := core p1;
       intake :=
         {| isUploadingFile := isUploadingFile (intake p1);
            uploadProgress := 100%float;
            selectedFile := selectedFile (intake p1);
            uploadIntervalRef := uploadIntervalRef (intake p1);
            intervals := intervals (intake p1);
            timeouts := S (timeouts (intake p1));
            alerts := alerts (intake p1) |} |}
  else
    {| core := core p;
       intake :=
         {| isUploadingFile := isUploadingFile (intake p);
            uploadProgress := newProgress;
            selectedFile := selectedFile (intake p);
            uploadIntervalRef := uploadIntervalRef (intake p);
            intervals := intervals (intake p);
            timeouts := timeouts (intake p);
            alerts := alerts (intake p) |} |}.

(** Lines 233-238: the callback of [setTimeout]. *)
Definition uploadFinished (p : Page) : Page :=
  {| core := core p;
     intake :=
       {| isUploadingFile := false;
          uploadProgress := 0%float;
          selectedFile := None;
          uploadIntervalRef := uploadIntervalRef (intake p);
          intervals := intervals (intake p);
          timeouts := pred (timeouts (intake p));
          alerts := alerts (intake p) ++ [MSG_NOT_IMPLEMENTED] |} |}.

(** Lines 249-257. *)
Definition handleCancelUpload (p : Page) : Page :=
  let p1 := match uploadIntervalRef (intake p) with
            | Some i => clearInterval i p
            | None => p
            end in
  {| core := core p1;
     intake :=
       {| isUploadingFile := false;
          uploadProgress := 0%float;
          selectedFile := None;
          uploadIntervalRef := None;
          intervals := intervals (intake p1);
          timeouts := timeouts (intake p1);
          alerts := alerts (intake p1) |} |}.


(** ** The page as an event-driven system

    What the user can do is read off the markup: which page [renderView]
    shows (lines 275-309), which controls it renders and when they are
    disabled (lines 335, 360, 362, 369, 381, 523, 551-613).  A promise of an
    [async] handler settles at any later time, in any order. *)

(** An awaited promise with what its continuation captured. *)
Inductive Pending :=
  | AwaitTranslation (input : jsstring)
  | AwaitSeed
  | AwaitReply.

(** The page and the promises its handlers await, oldest first. *)
Record System := { page : Page; pending : list Pending }.

(** What can happen next: an action of the user, the settling of the
    awaited promise at [index] (the clock reading [now1], then [now2]), a run
    of the upload interval, the completion timeout. *)
Inductive Event :=
  | TypeInput (text : jsstring)
  | ClickTranslate
  | ChooseFile (files : option File) (timer : positive)
  | ClickCancelUpload
  | ClickClearHistory
  | ClickHistoryItem (index : nat)
  | ClickGoHome
  | ClickStartChat (created : Outcome unit)
  | ClickCloseChat
  | TypeChat (text : jsstring)
  | SubmitChat
  | Settle (index : nat) (now1 now2 : Z) (response : Outcome jsstring)
  | Tick (random : float)
  | TimeoutFires.

(** The page once mounted in state [w]. *)
Definition boot (w : World) : System :=
  {| page := {| core := w; intake := idle |}; pending := [] |}.

(** [s] with the controller's state replaced and [awaited] now awaited. *)
Definition with_app (s : System) (w : World) (awaited : list Pending)
    : System :=
  {| page := {| core := w; intake := intake (page s) |};
     pending := pending s ++ awaited |}.

Definition with_page (s : System) (p : Page) : System :=
  {| page := p; pending := pending s |}.

(** [x] when the control is rendered and enabled. *)
Definition when {A} (b : bool) (x : A) : option A :=
  if b then Some x else None.

(** Lines 276-308: [HomePage] is shown, not [ResultPage]. *)
Definition isHome (w : World) : bool :=
  match view w with home => true | result_view => false end.

Section Machine.
Context `{JSON}.

(** One event; [None] when the page offers no such control in state [s]. *)
Definition step (e : Event) (s : System) : option System :=
  let w := core (page s) in
  let busy := isLoading w in
  let uploading := isUploadingFile (intake (page s)) in
  match e with
  | TypeInput text =>
    when (isHome w && negb (busy || uploading))
         (with_app s (setInputText text w) [])
  | ClickTranslate =>
    when (isHome w && negb (busy || negb (truthy (inputText w)) || uploading))
         (match handleTranslate_start w with
          | (w1, Some input) => with_app s w1 [AwaitTranslation input]
          | (w1, None) => with_app s w1 []
          end)
  | ChooseFile files timer =>
    when (isHome w && negb (busy || uploading)
          && bool_decide (timer ∉ intervals (intake (page s))))
         (with_page s (handleFileChange files timer (page s)))
  | ClickCancelUpload =>
    when (isHome w && uploading)
         (with_page s (handleCancelUpload (page s)))
  | ClickClearHistory =>
    when (isHome w && bool_decide (0 < length (translationHistory w))%nat)
         (with_app s (handleClearHistory w) [])
  | ClickHistoryItem index =>
    if isHome w then
      match translationHistory w !! index with
      | Some item => Some (with_app s (handleViewHistoryItem item w) [])
      | None => None
      end
    else None
  | ClickGoHome =>
    when (negb (isHome w)) (with_app s (handleGoHome w) [])
  | ClickStartChat created =>
    when (negb (isHome w) && negb (isChatOpen w))
         (match handleStartChat_start created w with
          | (w1, true) => with_app s w1 [AwaitSeed]
          | (w1, false) => with_app s w1 []
          end)
  | ClickCloseChat =>
    when (negb (isHome w) && isChatOpen w)
         (with_app s (handleCloseChat w) [])
  | TypeChat text =>
    when (negb (isHome w) && isChatOpen w && negb busy)
         (with_app s (setChatInput text w) [])
  | SubmitChat =>
    when (negb (isHome w) && isChatOpen w
          && negb (busy || negb (truthy (chatInput w))))
         (match handleSendMessage_start w with
          | (w1, true) => with_app s w1 [AwaitReply]
          | (w1, false) => with_app s w1 []
          end)
  | Settle index now1 now2 response =>
    match pending s !! index with
    | Some awaited =>
      let w1 := match awaited with
                | AwaitTranslation input =>
                  handleTranslate_settle input now1 now2 response w
                | AwaitSeed => handleStartChat_settle response w
                | AwaitReply => handleSendMessage_settle response w
                end in
      Some {| page := {| core := w1; intake := intake (page s) |};
              pending := delete index (pending s) |}
    | None => None
    end
  | Tick random =>
    when (negb (bool_decide (intervals (intake (page s)) = ∅)))
         (with_page s (uploadTick random (page s)))
  | TimeoutFires =>
    when (bool_decide (0 < timeouts (intake (page s)))%nat)
         (with_page s (uploadFinished (page s)))
  end.

Fixpoint steps (es : list Event) (s : System) : option System :=
  match es with
  | [] => Some s
  | e :: rest =>
    match step e s with
    | Some s1 => steps rest s1
    | None => None
    end
  end.

(** A state the page can be in after it was mounted over [storage]. *)
Definition reachable (storage : gmap jsstring jsstring) (s : System) : Prop :=
  ∃ es, steps es (boot (startup storage)) = Some s.

End Machine.

(** What [renderView] needs of the state: [ResultPage] takes [result!], and
    the home page shows no chat. *)
Definition consistent (w : World) : Prop :=
  match view w with
  | home => result w = None ∧ chatRef w = None ∧ isChatOpen w = false
  | result_view => is_Some (result w)
  end.

Section Kept.

Context `{JSON}.

(** The history [w] holds against its stored copy, [w0] being the state
    after the load at mount: both as loaded, or both emptied, or the stored
    text is the print of the history. *)
Definition stored_in_step (w0 w : World) : Prop :=
  (translationHistory w = translationHistory w0
   ∧ localStorage w = localStorage w0)
  ∨ (translationHistory w = [] ∧ localStorage w !! HISTORY_KEY = None)
  ∨ localStorage w !! HISTORY_KEY = Some (JSON_stringify (translationHistory w)).

Definition history_kept (w0 w : World) : Prop :=
  ((length (translationHistory w0) ≤ 50)%nat →
   (length (translationHistory w) ≤ 50)%nat)
  ∧ stored_in_step w0 w.

End Kept.

(** The busy flag is down when no promise is awaited. *)
Definition settled (s : System) : Prop :=
  pending s = [] → isLoading (core (page s)) = false.


(** ** More sample data for the examples *)

Module Demo.

(** [Sample.json], printing the history of the one sample item as
    [JSON.stringify] prints it. *)
Definition exact_json : JSON :=
  {| JSON_stringify := fun h =>
       if bool_decide (id <$> h = [utf16 "1730000000000"])
       then Sample.history_text else Sample.stringify h;
     JSON_parse_history := Sample.parse_history;
     JSON_parse_result := Sample.parse_result |}.

(** A reply with two marked passages, the second left open. *)
Definition reply : jsstring := utf16 "Prazo: **15 dias** a partir de **hoje".

Definition turns : list (jsstring * Outcome jsstring) :=
  [ (utf16 "Qual o prazo?", Fulfilled (utf16 "Cerca de um ano."));
    (utf16 "   ", Rejected);
    (utf16 "E os custos?", Rejected) ].

(** A PDF of exactly the size limit. *)
Definition pdf : File :=
  {| file_name := utf16 "sentenca.pdf"; file_type := PDF_TYPE;
     file_size := 10485760 |}.

(** A visit: translate a text, go home, open the entry from the history,
    start the chat. *)
Definition visit : list Event :=
  [ TypeInput Sample.input; ClickTranslate;
    Settle 0 1730000000000 1730000000000 (Fulfilled Sample.response_text);
    ClickGoHome; ClickHistoryItem 0; ClickStartChat (Fulfilled ());
    Settle 0 0 0 (Fulfilled (utf16 "Posso ajudar?")) ].

(** The home page with one entry in the history and a draft typed in. *)
Definition returning : System :=
  boot (setInputText Sample.input
          (@startup Sample.json {[ HISTORY_KEY := Sample.history_text ]})).

(** The result page with the chat open and a question typed in. *)
Definition asking : System := boot Sample.chatting.

(** The home page with a draft of blanks only. *)
Definition blank_draft : System :=
  boot (setInputText (utf16 "   ") (initial ∅)).

End Demo.

(** * Properties *)

Section Properties.

Context `{JSON}.

(** ** Basic facts *)

(** Case analysis on a state: one goal, every field a variable. *)
Ltac destruct_world w :=
  destruct w as [v inp busy err res hist op msgs cin ref st cs].

Lemma truthy_true (s : jsstring) : truthy s = true ↔ s ≠ [].
Proof.
  unfold truthy. rewrite negb_true_iff, bool_decide_eq_false. done.
Qed.

Lemma truthy_false (s : jsstring) : truthy s = false ↔ s = [].
Proof.
  unfold truthy. rewrite negb_false_iff, bool_decide_eq_true. done.
Qed.

(** ** Navigation *)

(** C7. From the result view (and from any state) [handleGoHome] shows the
    home view, clears the current result and the error, and destroys the chat
    session (reference, messages and panel); the text typed into the input
    box is left as it was, as are the history and its stored copy. *)
Theorem goHome_clears_all_but_draft (w : World) :
  let w' := handleGoHome w in
  view w' = home
  ∧ result w' = None
  ∧ error w' = []
  ∧ chatRef w' = None ∧ chatHistory w' = [] ∧ isChatOpen w' = false
  ∧ inputText w' = inputText w
  ∧ translationHistory w' = translationHistory w
  ∧ localStorage w' = localStorage w
  ∧ calls w' = calls w.
Proof.
  destruct_world w.
  repeat split.
Qed.

(** C9. [handleViewHistoryItem] leaves the error message as it was (where
    [handleGoHome] empties it), makes the item the current result, destroys
    the chat session and shows the result view, without any request. *)
Theorem viewHistoryItem_keeps_error (w : World) (item : TranslationResult) :
  let w' := handleViewHistoryItem item w in
  error w' = error w
  ∧ error (handleGoHome w) = []
  ∧ result w' = Some item
  ∧ chatRef w' = None ∧ chatHistory w' = [] ∧ isChatOpen w' = false
  ∧ view w' = result_view
  ∧ calls w' = calls w.
Proof.
  destruct_world w.
  repeat split.
Qed.

(** ** Translation *)

(** A blank input stops [handleTranslate] at line 86. *)
Lemma handleTranslate_start_blank (w : World) :
  trim (inputText w) = [] →
  handleTranslate_start w = (setError MSG_EMPTY_INPUT w, None).
Proof.
  intros Hblank. unfold handleTranslate_start.
  apply truthy_false in Hblank. rewrite Hblank. reflexivity.
Qed.

(** Any other input reaches the collaborator, with the result cleared, the
    error emptied and the busy flag set. *)
Lemma handleTranslate_start_valid (w : World) :
  trim (inputText w) ≠ [] →
  handleTranslate_start w =
    ((setIsLoading true >> setError [] >> setResult None
      >> invoke (GenerateContent MODEL_NAME (translatePrompt (inputText w)))) w,
     Some (inputText w)).
Proof.
  intros Hvalid. unfold handleTranslate_start.
  apply truthy_true in Hvalid. rewrite Hvalid. reflexivity.
Qed.

(** The state a translation ends in when the collaborator fails. *)
Lemma handleTranslate_failure (w : World) (now1 now2 : Z)
    (response : Outcome jsstring) :
  trim (inputText w) ≠ [] →
  parsedResponse response = None →
  handleTranslate now1 now2 response w =
    (setIsLoading true >> setError [] >> setResult None
     >> invoke (GenerateContent MODEL_NAME (translatePrompt (inputText w)))
     >> setError MSG_TRANSLATE_FAILED >> setIsLoading false) w.
Proof.
  intros Hvalid Hfail. unfold handleTranslate.
  rewrite handleTranslate_start_valid by done.
  unfold handleTranslate_settle.
  destruct response as [response_text|]; simpl in Hfail.
  - rewrite Hfail. reflexivity.
  - reflexivity.
Qed.

(** The state a translation ends in when the response parses. *)
Lemma handleTranslate_success (w : World) (now1 now2 : Z)
    (response_text : jsstring) (parsedResult : TranslationResult) :
  trim (inputText w) ≠ [] →
  JSON_parse_result response_text = Some parsedResult →
  let r := newResult parsedResult (inputText w) now1 now2 in
  handleTranslate now1 now2 (Fulfilled response_text) w =
    (setIsLoading true >> setError [] >> setResult None
     >> invoke (GenerateContent MODEL_NAME (translatePrompt (inputText w)))
     >> setResult (Some r) >> recordHistory r >> setView result_view
     >> setIsLoading false) w.
Proof.
  intros Hvalid Hparse. unfold handleTranslate.
  rewrite handleTranslate_start_valid by done.
  unfold handleTranslate_settle. rewrite Hparse. reflexivity.
Qed.

(** C2. A non-blank input and a response that parses: the new result carries
    the input verbatim, the two clock readings as [id] and [timestamp] and the
    response's content; it becomes the current result and the head of the
    history (cut to 50), and the result view is shown. *)
Theorem translate_succeeds (w : World) (now1 now2 : Z)
    (response_text : jsstring) (parsedResult : TranslationResult) :
  trim (inputText w) ≠ [] →
  JSON_parse_result response_text = Some parsedResult →
  let w' := handleTranslate now1 now2 (Fulfilled response_text) w in
  ∃ r : TranslationResult,
    result w' = Some r
    ∧ originalText r = inputText w
    ∧ id r = toString now1 ∧ timestamp r = now2
    ∧ translation r = translation parsedResult
    ∧ summaryPoints r = summaryPoints parsedResult
    ∧ jurimetrics r = jurimetrics parsedResult
    ∧ translationHistory w' = take 50 (r :: translationHistory w)
    ∧ head (translationHistory w') = Some r
    ∧ view w' = result_view
    ∧ error w' = [] ∧ isLoading w' = false.
Proof.
  intros Hvalid Hparse w'. subst w'.
  rewrite (handleTranslate_success w now1 now2 response_text parsedResult)
    by done.
  exists (newResult parsedResult (inputText w) now1 now2).
  destruct_world w.
  repeat split.
Qed.



(** ** The history store *)

Lemma take_cons_take {A} (n : nat) (x : A) (l : list A) :
  take n (x :: take n l) = take n (x :: l).
Proof.
  destruct n as [|n]; [done|]. simpl. f_equal.
  rewrite take_take. f_equal. lia.
Qed.

Lemma take_app_take {A} (n : nat) (l k : list A) :
  take n (l ++ take n k) = take n (l ++ k).
Proof.
  rewrite !take_app, take_take. do 2 f_equal. lia.
Qed.

(** Navigation and chat leave the history and the storage alone; so does a
    translation that fails. *)
Lemma history_frame (w : World) :
  let same (w' : World) :=
    translationHistory w' = translationHistory w
    ∧ localStorage w' = localStorage w in
  same (handleGoHome w)
  ∧ (∀ item, same (handleViewHistoryItem item w))
  ∧ (∀ created response, same (handleStartChat created response w))
  ∧ same (handleCloseChat w)
  ∧ (∀ response, same (handleSendMessage response w))
  ∧ (∀ now1 now2 response,
       parsedResponse response = None →
       same (handleTranslate now1 now2 response w)).
Proof.
  intros same. subst same. simpl.
  split; [done|]. split; [done|]. split; [|split; [done|split]].
  - intros created response.
    unfold handleStartChat, handleStartChat_start.
    destruct (handleStartChat_reuses w); [done|].
    by destruct created, response.
  - intros response. unfold handleSendMessage, handleSendMessage_start.
    destruct (handleSendMessage_ignores w); [done|].
    by destruct (chatRef w), response.
  - intros now1 now2 response Hfail.
    destruct (decide (trim (inputText w) = [])) as [Hblank|Hvalid].
    + unfold handleTranslate. by rewrite handleTranslate_start_blank.
    + by rewrite handleTranslate_failure.
Qed.

(** One successful submission: lines 137-141 prepend the new result, keep
    the first 50 and store what they keep. *)
Lemma submit_records (s : Submission) (w : World) (r : TranslationResult) :
  trim (sub_text s) ≠ [] →
  created s = Some r →
  translationHistory (submit s w) = take 50 (r :: translationHistory w)
  ∧ localStorage (submit s w) =
      <[HISTORY_KEY := JSON_stringify (take 50 (r :: translationHistory w))]>
        (localStorage w).
Proof.
  intros Hvalid Hcreated. unfold created in Hcreated.
  destruct (JSON_parse_result (sub_response s)) as [parsedResult|] eqn:Hparse;
    [|discriminate].
  simpl in Hcreated. injection Hcreated as <-.
  unfold submit, andThen.
  rewrite (handleTranslate_success _ _ _ _ parsedResult) by done.
  destruct_world w.
  split; reflexivity.
Qed.

Lemma successful_created (s : Submission) :
  successful s → ∃ r, created s = Some r.
Proof.
  intros [_ [parsedResult Hparse]]. unfold created. rewrite Hparse. eauto.
Qed.

Lemma created_all (ss : list Submission) :
  Forall successful ss → length (omap created ss) = length ss.
Proof.
  induction 1 as [|s ss Hs _ IH]; [done|].
  destruct (successful_created s Hs) as [r Hr].
  cbn. rewrite Hr. cbn. by rewrite IH.
Qed.

Lemma run_snoc (ss : list Submission) (s : Submission) (w : World) :
  run (ss ++ [s]) w = submit s (run ss w).
Proof. unfold run. by rewrite foldl_app. Qed.

(** The history after a run of successful submissions: the created results,
    newest first, before the entries there were, cut to 50. *)
Lemma run_history (ss : list Submission) (w : World) :
  ss ≠ [] →
  Forall successful ss →
  translationHistory (run ss w) =
    take 50 (reverse (omap created ss) ++ translationHistory w).
Proof.
  induction ss as [|s ss IH] using rev_ind; [done|].
  intros _ Hss. apply Forall_app in Hss as [Hss Hs].
  rewrite Forall_singleton in Hs.
  destruct (successful_created s Hs) as [r Hr].
  rewrite run_snoc.
  destruct (submit_records s (run ss w) r (proj1 Hs) Hr) as [-> _].
  assert (omap created [s] = [r]) as Hone by (cbn; by rewrite Hr).
  rewrite omap_app, Hone, reverse_snoc, <- app_comm_cons.
  destruct (decide (ss = [])) as [->|Hne]; [done|].
  rewrite IH by done. apply take_cons_take.
Qed.

(** After a run the stored copy is the print of the history in memory. *)
Lemma run_stored (ss : list Submission) (w : World) :
  ss ≠ [] →
  Forall successful ss →
  localStorage (run ss w) !! HISTORY_KEY =
    Some (JSON_stringify (translationHistory (run ss w))).
Proof.
  destruct ss as [|s ss _] using rev_ind; [done|].
  intros _ Hss. apply Forall_app in Hss as [_ Hs].
  rewrite Forall_singleton in Hs.
  destruct (successful_created s Hs) as [r Hr].
  rewrite run_snoc.
  destruct (submit_records s (run ss w) r (proj1 Hs) Hr) as [-> ->].
  apply lookup_insert_eq.
Qed.

(** C1. Each successful translation prepends its result, keeps the first 50
    entries and stores exactly what it keeps.  After any non-empty run of
    successful translations the history holds the created results, newest
    first, ahead of the older entries, and never more than 50; its stored
    copy is the print of the history in memory; and after more than 50 of
    them it is exactly the last 50 created, newest first. *)
Theorem history_bounded_and_stored (ss : list Submission) (w : World) :
  Forall successful ss →
  let w' := run ss w in
  let results := omap created ss in
  (∀ (s : Submission) (r : TranslationResult) (w0 : World),
     successful s → created s = Some r →
     translationHistory (submit s w0) = take 50 (r :: translationHistory w0)
     ∧ localStorage (submit s w0) !! HISTORY_KEY =
         Some (JSON_stringify (translationHistory (submit s w0))))
  ∧ length results = length ss
  ∧ (ss ≠ [] →
     translationHistory w' = take 50 (reverse results ++ translationHistory w)
     ∧ (length (translationHistory w') ≤ 50)%nat
     ∧ localStorage w' !! HISTORY_KEY =
         Some (JSON_stringify (translationHistory w')))
  ∧ ((length (translationHistory w) ≤ 50)%nat →
     (length (translationHistory w') ≤ 50)%nat)
  ∧ ((50 < length ss)%nat →
     translationHistory w' = reverse (drop (length ss - 50) results)
     ∧ length (translationHistory w') = 50%nat).
Proof.
  intros Hss w' results. subst w' results.
  pose proof (created_all ss Hss) as Hlen.
  split; [|split; [done|split; [|split]]].
  - intros s r w0 Hs Hr.
    destruct (submit_records s w0 r (proj1 Hs) Hr) as [-> ->].
    split; [done|apply lookup_insert_eq].
  - intros Hne. rewrite run_history by done.
    split; [done|split].
    + rewrite length_take. lia.
    + rewrite <- run_history by done. by apply run_stored.
  - intros Hbound. destruct (decide (ss = [])) as [->|Hne]; [done|].
    rewrite run_history, length_take by done. lia.
  - intros Hmany.
    assert (ss ≠ []) as Hne by (intros ->; simpl in Hmany; lia).
    rewrite run_history by done.
    rewrite take_app_le by (rewrite length_reverse; lia).
    rewrite take_reverse, Hlen. split; [done|].
    rewrite length_reverse, length_drop. lia.
Qed.

(** ** Chat *)

Lemma isSeedPrompt_first (chat : Chat) :
  isSeedPrompt (SendMessage chat firstPrompt) = true.
Proof. unfold isSeedPrompt. by apply bool_decide_eq_true_2. Qed.



(** The state an opening ends in when the session is created. *)
Lemma handleStartChat_created (w : World) (response : Outcome jsstring) :
  handleStartChat_reuses w = false →
  handleStartChat (Fulfilled ()) response w =
    (setIsChatOpen true >> setIsLoading true >> setChatHistory []
     >> invoke (ChatsCreate (chatConfig (result w)))
     >> set_chatRef (Some (chatConfig (result w)))
     >> invoke (SendMessage (chatConfig (result w)) firstPrompt)
     >> handleStartChat_settle response) w.
Proof.
  intros Hopen. unfold handleStartChat, handleStartChat_start.
  rewrite Hopen. unfold andThen. reflexivity.
Qed.

(** The state an opening ends in when [ai.chats.create] throws. *)
Lemma handleStartChat_not_created (w : World) (response : Outcome jsstring) :
  handleStartChat_reuses w = false →
  handleStartChat Rejected response w =
    (setIsChatOpen true >> setIsLoading true >> setChatHistory []
     >> invoke (ChatsCreate (chatConfig (result w)))
     >> handleStartChat_catch >> setIsLoading false) w.
Proof.
  intros Hopen. unfold handleStartChat, handleStartChat_start.
  rewrite Hopen. unfold andThen. reflexivity.
Qed.

(** The guard of line 185 lets a message through exactly when its trimmed
    text is not empty, nothing is in flight and a session exists. *)
Lemma handleSendMessage_ignores_false (w : World) :
  handleSendMessage_ignores w = false ↔
  trim (chatInput w) ≠ [] ∧ isLoading w = false ∧ is_Some (chatRef w).
Proof.
  unfold handleSendMessage_ignores.
  rewrite !orb_false_iff, !negb_false_iff, truthy_true, bool_decide_eq_true.
  tauto.
Qed.

(** Without a session every message is dropped, whatever the collaborator
    would have answered. *)
Lemma handleSendMessage_no_session (w : World) (response : Outcome jsstring) :
  chatRef w = None → handleSendMessage response w = w.
Proof.
  intros Hnone. unfold handleSendMessage, handleSendMessage_start.
  replace (handleSendMessage_ignores w) with true; [done|].
  unfold handleSendMessage_ignores. rewrite Hnone.
  rewrite bool_decide_eq_false_2 by (by intros [? ?]).
  by rewrite orb_true_r.
Qed.

(** The state a message that passes the guard ends in. *)
Lemma handleSendMessage_sends (w : World) (chat : Chat)
    (response : Outcome jsstring) :
  handleSendMessage_ignores w = false →
  chatRef w = Some chat →
  handleSendMessage response w =
    (setChatHistory (chatHistory w ++ [ {| role := user; text := chatInput w |} ])
     >> setChatInput [] >> setIsLoading true
     >> invoke (SendMessage chat (chatInput w))
     >> handleSendMessage_settle response) w.
Proof.
  intros Hpass Hchat. unfold handleSendMessage, handleSendMessage_start.
  by rewrite Hpass, Hchat.
Qed.

(** C6. When the guard of line 185 lets the message through and the call it
    makes fails, the messages end with the user's message followed by one
    fallback message of the model: two more than before.  The session is
    kept and the busy flag is down, so the next non-blank message passes the
    guard too. *)
Theorem send_failure_appends_fallback (w : World) :
  handleSendMessage_ignores w = false →
  let w' := handleSendMessage Rejected w in
  chatHistory w' =
    chatHistory w ++ [ {| role := user; text := chatInput w |};
                       {| role := model; text := MSG_CHAT_SEND_FAILED |} ]
  ∧ length (chatHistory w') = (length (chatHistory w) + 2)%nat
  ∧ (∃ chat, chatRef w = Some chat
             ∧ calls w' = calls w ++ [SendMessage chat (chatInput w)])
  ∧ chatRef w' = chatRef w
  ∧ isLoading w' = false
  ∧ (∀ next : jsstring, trim next ≠ [] →
       handleSendMessage_ignores (setChatInput next w') = false).
Proof.
  intros Hpass w'. subst w'.
  pose proof Hpass as Hstate.
  apply handleSendMessage_ignores_false in Hstate as (_ & _ & [chat Hchat]).
  rewrite (handleSendMessage_sends w chat) by done.
  destruct_world w.
  simpl in Hchat. subst ref.
  unfold andThen, handleSendMessage_settle, andThen. simpl.
  rewrite <- app_assoc. simpl.
  split; [done|]. split; [rewrite length_app; simpl; lia|].
  split; [by exists chat|]. split; [done|]. split; [done|].
  intros next Hnext. apply handleSendMessage_ignores_false. simpl.
  by eauto.
Qed.


(** C4, as the code has it.  An opening that starts a session and fails
    ends with the single fallback message as the only message, the panel
    shown, the busy flag down and no error reported.  When the seed prompt
    fails the session created is kept, and every non-blank message passes
    the guard of [handleSendMessage]; when [ai.chats.create] fails no session
    is stored: the reference is the one there was, and where there was none
    every message is dropped. *)
Theorem open_failure_falls_back (w : World) (response : Outcome jsstring) :
  handleStartChat_reuses w = false →
  let fallback := [ {| role := model; text := MSG_CHAT_START_FAILED |} ] in
  let w1 := handleStartChat Rejected response w in
  let w2 := handleStartChat (Fulfilled ()) Rejected w in
  (chatHistory w1 = fallback ∧ isChatOpen w1 = true ∧ isLoading w1 = false
   ∧ error w1 = error w
   ∧ chatRef w1 = chatRef w
   ∧ (chatRef w = None →
      ∀ (next : jsstring) (reply : Outcome jsstring),
        handleSendMessage reply (setChatInput next w1) = setChatInput next w1))
  ∧ (chatHistory w2 = fallback ∧ isChatOpen w2 = true ∧ isLoading w2 = false
     ∧ error w2 = error w
     ∧ chatRef w2 = Some (chatConfig (result w))
     ∧ (∀ next : jsstring, trim next ≠ [] →
          handleSendMessage_ignores (setChatInput next w2) = false)).
Proof.
  intros Hopen fallback w1 w2. subst fallback w1 w2.
  rewrite handleStartChat_not_created, handleStartChat_created by done.
  destruct_world w.
  unfold andThen, handleStartChat_settle, handleStartChat_catch, andThen.
  simpl. split.
  - repeat split. intros -> next reply.
    by apply handleSendMessage_no_session.
  - repeat split. intros next Hnext.
    apply handleSendMessage_ignores_false. simpl. by eauto.
Qed.

(** ** History load *)

(** Line 57: an empty stored text is falsy, so the load does nothing,
    whatever [JSON.parse] would make of it. *)
Lemma load_skips_empty_text (storage : gmap jsstring jsstring) :
  storage !! HISTORY_KEY = Some ([] : jsstring) →
  startup storage = initial storage.
Proof.
  intros Hstored. unfold startup, loadHistory, localStorage_getItem. simpl.
  by rewrite Hstored.
Qed.

(** Nothing stored under the key: the load does nothing. *)
Lemma load_without_entry (storage : gmap jsstring jsstring) :
  storage !! HISTORY_KEY = None → startup storage = initial storage.
Proof.
  intros Hstored. unfold startup, loadHistory, localStorage_getItem. simpl.
  by rewrite Hstored.
Qed.


End Properties.

(** * Examples *)

(** Example for C1: 51 submissions from the initial state leave the last 50
    results, newest first. *)
Lemma history_bounded_and_stored_example :
  let w' := @run Sample.json Sample.submissions (initial ∅) in
  translationHistory w' =
    reverse (drop 1 (omap (@created Sample.json) Sample.submissions))
  ∧ length (translationHistory w') = 50%nat.
Proof.
  assert (Forall (@successful Sample.json) Sample.submissions) as Hss.
  { apply Forall_fmap, Forall_forall. intros n _. split.
    - vm_compute. discriminate.
    - exists Sample.parsed. vm_compute. reflexivity. }
  apply (@history_bounded_and_stored Sample.json Sample.submissions
           (initial ∅) Hss).
  vm_compute. lia.
Defined.

(** Example for C2: the sample draft, with its blanks, comes back as
    [originalText]. *)
Lemma translate_succeeds_example :
  ∃ r : TranslationResult,
    result (@handleTranslate Sample.json 1730000000000 1730000000001
              (Fulfilled Sample.response_text) Sample.drafting) = Some r
    ∧ originalText r = inputText Sample.drafting
    ∧ id r = toString 1730000000000 ∧ timestamp r = 1730000000001.
Proof.
  destruct (@translate_succeeds Sample.json Sample.drafting
              1730000000000 1730000000001 Sample.response_text Sample.parsed)
    as (r & Hr & Horig & Hid & Hts & _).
  - vm_compute. discriminate.
  - vm_compute. reflexivity.
  - exists r. split; [exact Hr|]. split; [exact Horig|].
    split; [exact Hid|exact Hts].
Defined.



(** Example for C6: a failed message in the sample session. *)
Lemma send_failure_appends_fallback_example :
  length (chatHistory (handleSendMessage Rejected Sample.chatting))
  = (length (chatHistory Sample.chatting) + 2)%nat.
Proof.
  destruct (send_failure_appends_fallback Sample.chatting)
    as (_ & Hlength & _).
  - vm_compute. reflexivity.
  - exact Hlength.
Defined.


(** Example for C4: the seed prompt fails on the sample result page. *)
Lemma open_failure_falls_back_example :
  chatRef (handleStartChat (Fulfilled ()) Rejected Sample.viewing)
  = Some (chatConfig (result Sample.viewing)).
Proof.
  destruct (open_failure_falls_back Sample.viewing Rejected)
    as (_ & _ & _ & _ & _ & Hchat & _).
  - vm_compute. reflexivity.
  - exact Hchat.
Defined.


(** * Where the specification and the code part *)

(** C4 as stated fails when [ai.chats.create] throws: the fallback message
    is shown, but no session is stored and the message sent next is dropped
    by the guard of line 185, whatever the collaborator would answer. *)
Lemma send_after_failed_creation_is_dropped :
  let w1 := handleStartChat Rejected Rejected Sample.viewing in
  let typed := setChatInput (utf16 "Qual o prazo?") w1 in
  chatHistory w1 = [ {| role := model; text := MSG_CHAT_START_FAILED |} ]
  ∧ chatRef w1 = None
  ∧ handleSendMessage_ignores typed = true
  ∧ handleSendMessage (Fulfilled (utf16 "Cerca de um ano.")) typed = typed
  ∧ handleSendMessage Rejected typed = typed.
Proof. vm_compute. repeat split. Qed.



(** * Properties of the rest of the page *)

Section Coverage.

Context `{JSON}.

Ltac destruct_world w :=
  destruct w as [v inp busy err res hist op msgs cin ref st cs].

Ltac unfold_handlers :=
  unfold with_app, with_page, handleTranslate_start, handleTranslate_settle,
    handleTranslate_catch, recordHistory, handleStartChat_start,
    handleStartChat_settle, handleStartChat_catch, handleSendMessage_start,
    handleSendMessage_settle, handleClearHistory, handleViewHistoryItem,
    handleGoHome, handleCloseChat, handleFileChange, handleCancelUpload,
    uploadTick, uploadFinished, clearInterval, in_app,
    localStorage_setItem, localStorage_removeItem, andThen, when, isHome in *.


(** Running a list of events, one step at a time. *)
Lemma steps_cons (e : Event) (es : list Event) (s s1 : System)
    (r : option System) :
  step e s = Some s1 → steps es s1 = r → steps (e :: es) s = r.
Proof. intros Hstep Hrest. simpl. by rewrite Hstep. Qed.

Ltac take_step tac :=
  eapply steps_cons;
  [ unfold step; unfold_handlers; simpl; tac; simpl; reflexivity | ].


(** ** Rendering of replies *)

Lemma startsWith_prefix (p s : jsstring) :
  startsWith p s = true ↔ p `prefix_of` s.
Proof.
  revert s. induction p as [|a p IH]; intros s; simpl.
  - split; [intros _; apply prefix_nil|done].
  - destruct s as [|b s].
    + split; [done|]. intros Hp. by apply prefix_nil_inv in Hp.
    + rewrite andb_true_iff, bool_decide_eq_true, IH. split.
      * intros [-> Hp]. by apply prefix_cons.
      * intros Hp. split; [by apply prefix_cons_inv_1 in Hp|by apply prefix_cons_inv_2 in Hp].
Qed.

Lemma split_from_skip (separator : jsstring) (k : nat) (part s : jsstring) :
  split_from separator k part s = split_from separator 0 part (drop k s).
Proof.
  revert k. induction s as [|c s IH]; intros [|k]; try done.
  simpl. apply IH.
Qed.

Lemma split_from_match (separator part s : jsstring) :
  separator ≠ [] → s ≠ [] → startsWith separator s = true →
  split_from separator 0 part s =
    part :: split_from separator 0 [] (drop (length separator) s).
Proof.
  intros Hsep Hs Hm. destruct s as [|c rest]; [done|].
  simpl. simpl in Hm. rewrite Hm. rewrite split_from_skip. do 2 f_equal.
  destruct separator; [done|]. simpl. by rewrite Nat.sub_0_r.
Qed.

Lemma split_from_step (separator part : jsstring) (c : N) (rest : jsstring) :
  startsWith separator (c :: rest) = false →
  split_from separator 0 part (c :: rest) =
    split_from separator 0 (part ++ [c]) rest.
Proof. intros Hm. simpl. simpl in Hm. by rewrite Hm. Qed.

Lemma split_from_nonempty (separator : jsstring) (k : nat) (part s : jsstring) :
  split_from separator k part s ≠ [].
Proof.
  revert k part. induction s as [|c s IH]; intros k part; [done|].
  simpl. destruct k; [|apply IH].
  destruct (startsWith separator (c :: s)); [done|apply IH].
Qed.

Lemma joinWith_cons (separator p : jsstring) (rest : list jsstring) :
  rest ≠ [] →
  joinWith separator (p :: rest) = p ++ separator ++ joinWith separator rest.
Proof. by destruct rest. Qed.

Lemma join_split_from (separator : jsstring) (n : nat) :
  separator ≠ [] →
  ∀ s part, (length s ≤ n)%nat →
    joinWith separator (split_from separator 0 part s) = part ++ s.
Proof.
  intros Hsep. induction n as [|n IH]; intros s part Hlen.
  - destruct s; [|simpl in Hlen; lia]. simpl. by rewrite app_nil_r.
  - destruct s as [|c rest]; [simpl; by rewrite app_nil_r|].
    destruct (startsWith separator (c :: rest)) eqn:Hm.
    + rewrite split_from_match by done.
      rewrite joinWith_cons by apply split_from_nonempty.
      apply startsWith_prefix in Hm as [tail Htail].
      rewrite Htail, drop_app_length.
      rewrite IH; [done|].
      apply (f_equal length) in Htail. rewrite length_app in Htail.
      simpl in Htail, Hlen. destruct separator; [done|]. simpl in Htail. lia.
    + rewrite split_from_step by done.
      rewrite IH by (simpl in Hlen; lia).
      by rewrite <- app_assoc.
Qed.

Lemma join_split (separator s : jsstring) :
  separator ≠ [] → joinWith separator (split separator s) = s.
Proof. intros Hsep. by apply (join_split_from separator (length s)). Qed.

Lemma occurrence_starts (separator part l1 l2 s : jsstring) :
  part = l1 ++ separator ++ l2 →
  startsWith separator (drop (length l1) (part ++ s)) = true.
Proof.
  intros ->. rewrite <- !app_assoc, drop_app_length.
  apply startsWith_prefix. by apply prefix_app_r.
Qed.

Lemma split_from_free (separator : jsstring) (n : nat) :
  separator ≠ [] →
  ∀ s part, (length s ≤ n)%nat →
    (∀ i, (i < length part)%nat →
          startsWith separator (drop i (part ++ s)) = false) →
    ∀ p, p ∈ split_from separator 0 part s → ¬ contains separator p.
Proof.
  intros Hsep.
  assert (∀ part s,
            (∀ i, (i < length part)%nat →
                  startsWith separator (drop i (part ++ s)) = false) →
            ¬ contains separator part) as Hfree.
  { intros part s Hpart (l1 & l2 & Hocc).
    pose proof (occurrence_starts separator part l1 l2 s Hocc) as Hstart.
    rewrite Hpart in Hstart; [done|].
    rewrite Hocc, !length_app. destruct separator; [done|]. simpl. lia. }
  induction n as [|n IH]; intros s part Hlen Hpart p Hp.
  - destruct s; [|simpl in Hlen; lia]. simpl in Hp.
    apply list_elem_of_singleton in Hp as ->. by apply (Hfree part []).
  - destruct s as [|c rest].
    { simpl in Hp. apply list_elem_of_singleton in Hp as ->.
      by apply (Hfree part []). }
    destruct (startsWith separator (c :: rest)) eqn:Hm.
    + rewrite split_from_match in Hp by done.
      apply elem_of_cons in Hp as [->|Hp]; [by apply (Hfree part (c :: rest))|].
      apply (IH (drop (length separator) (c :: rest)) []); [|simpl; lia|done].
      rewrite length_drop. simpl in *. destruct separator; [done|]. simpl. lia.
    + rewrite split_from_step in Hp by done.
      apply (IH rest (part ++ [c])); [simpl in Hlen; lia| |done].
      intros i Hi. rewrite <- app_assoc. simpl.
      rewrite length_app in Hi. simpl in Hi.
      destruct (decide (i = length part)) as [->|Hne].
      * by rewrite drop_app_length.
      * apply Hpart. lia.
Qed.

Lemma split_free (separator s p : jsstring) :
  separator ≠ [] → p ∈ split separator s → ¬ contains separator p.
Proof.
  intros Hsep. apply (split_from_free separator (length s)); [done..|].
  intros i Hi. simpl in Hi. lia.
Qed.

Lemma BOLD_MARK_nonempty : BOLD_MARK ≠ [].
Proof. vm_compute. discriminate. Qed.

Lemma parseBoldMarkdown_texts (text : jsstring) (nodes : list Node) :
  parseBoldMarkdown text = Some nodes →
  nodeText <$> nodes = split BOLD_MARK text.
Proof.
  unfold parseBoldMarkdown. destruct (negb (truthy text)); [done|].
  intros [= <-]. apply list_eq. intros i.
  rewrite list_lookup_fmap, list_lookup_imap.
  destruct (split BOLD_MARK text !! i) as [part|]; [|done].
  simpl. by case_bool_decide.
Qed.

(** X1. [parseBoldMarkdown] returns [null] for the empty text only, and
    otherwise at least one part; the texts of its parts, joined by the
    marker, are the text it was given: no character is lost or added. *)
Theorem bold_markdown_round_trip (text : jsstring) :
  (parseBoldMarkdown text = None ↔ text = [])
  ∧ (∀ nodes : list Node,
       parseBoldMarkdown text = Some nodes →
       joinWith BOLD_MARK (nodeText <$> nodes) = text
       ∧ nodes ≠ []).
Proof.
  split.
  - unfold parseBoldMarkdown. split.
    + destruct (negb (truthy text)) eqn:Hempty; [|done].
      intros _. apply negb_true_iff in Hempty. by apply truthy_false.
    + intros ->. reflexivity.
  - intros nodes Hnodes. pose proof Hnodes as Htexts.
    apply parseBoldMarkdown_texts in Htexts.
    rewrite Htexts. split; [apply join_split, BOLD_MARK_nonempty|].
    intros ->. simpl in Htexts. symmetry in Htexts.
    by apply split_from_nonempty in Htexts.
Qed.

Lemma odd_mod_2 (k : nat) :
  if Nat.odd k then (k mod 2 = 1)%nat else (k mod 2 ≠ 1)%nat.
Proof.
  destruct (Nat.odd k) eqn:Hodd.
  - apply Nat.odd_spec in Hodd as [m ->].
    replace (2 * m + 1)%nat with (1 + m * 2)%nat by lia.
    by rewrite Nat.Div0.mod_add.
  - rewrite <- Nat.negb_even in Hodd. apply negb_false_iff in Hodd.
    apply Nat.even_spec in Hodd as [m ->].
    replace (2 * m)%nat with (m * 2)%nat by lia.
    by rewrite Nat.Div0.mod_mul.
Qed.

(** X2. The parts alternate, plain first: the part at an odd index is a
    [strong] element keyed by its index, the part at an even index is plain
    text; and the marker occurs in no part. *)
Theorem bold_markdown_alternates (text : jsstring) (nodes : list Node)
    (k : nat) (n : Node) :
  parseBoldMarkdown text = Some nodes →
  nodes !! k = Some n →
  (if Nat.odd k then n = Strong k (nodeText n) else n = PlainText (nodeText n))
  ∧ ¬ contains BOLD_MARK (nodeText n).
Proof.
  intros Hnodes Hk. split.
  - unfold parseBoldMarkdown in Hnodes.
    destruct (negb (truthy text)); [done|]. injection Hnodes as <-.
    rewrite list_lookup_imap in Hk.
    destruct (split BOLD_MARK text !! k) as [part|]; [|done].
    injection Hk as <-.
    pose proof (odd_mod_2 k) as Hparity.
    destruct (Nat.odd k).
    + by rewrite bool_decide_eq_true_2.
    + by rewrite bool_decide_eq_false_2.
  - apply (split_free BOLD_MARK text); [apply BOLD_MARK_nonempty|].
    rewrite <- (parseBoldMarkdown_texts text nodes Hnodes).
    apply list_elem_of_fmap. exists n. split; [done|].
    by apply list_elem_of_lookup_2 in Hk.
Qed.


(** ** History and navigation *)

(** X3. [handleClearHistory] empties the history and removes its key from
    the storage, leaving every other key; doing it again changes nothing;
    and a page mounted over the storage it leaves starts with an empty
    history and that same storage. *)
Theorem clear_history_idempotent (w : World) :
  let w' := handleClearHistory w in
  translationHistory w' = []
  ∧ localStorage w' !! HISTORY_KEY = None
  ∧ (∀ k, k ≠ HISTORY_KEY → localStorage w' !! k = localStorage w !! k)
  ∧ handleClearHistory w' = w'
  ∧ translationHistory (startup (localStorage w')) = []
  ∧ localStorage (startup (localStorage w')) = localStorage w'.
Proof.
  intros w'. subst w'. destruct_world w.
  unfold handleClearHistory, andThen, localStorage_removeItem. simpl.
  split; [done|]. split; [apply lookup_delete_eq|].
  split; [intros k Hk; by apply lookup_delete_ne|].
  split; [by rewrite delete_delete_eq|].
  rewrite load_without_entry by apply lookup_delete_eq. done.
Qed.

(** X4. The load of lines 54-64 is idempotent: running the effect again
    (whatever the storage holds and however it parses) changes nothing. *)
Theorem loadHistory_idempotent (w : World) :
  loadHistory (loadHistory w) = loadHistory w.
Proof.
  destruct_world w. unfold loadHistory, localStorage_getItem. simpl.
  destruct (st !! HISTORY_KEY) as [storedHistory|] eqn:Hstored;
    [|simpl; by rewrite Hstored].
  destruct (truthy storedHistory) eqn:Htruthy;
    [|simpl; by rewrite Hstored, Htruthy].
  destruct (JSON_parse_history storedHistory) as [parsed|] eqn:Hparse; simpl.
  - by rewrite Hstored, Htruthy, Hparse.
  - by rewrite lookup_delete_eq.
Qed.

(** X5. After a run of successful translations, a page mounted over the
    storage they left starts with the very history they left and leaves the
    storage as it is, provided the platform parses the text it printed for
    that history back to it (and the text is not empty). *)
Theorem history_survives_reload (ss : list Submission) (w : World) :
  ss ≠ [] →
  Forall successful ss →
  let kept := translationHistory (run ss w) in
  JSON_stringify kept ≠ [] →
  JSON_parse_history (JSON_stringify kept) = Some kept →
  translationHistory (startup (localStorage (run ss w))) = kept
  ∧ localStorage (startup (localStorage (run ss w))) = localStorage (run ss w).
Proof.
  intros Hne Hss kept Hprint Hround.
  pose proof (run_stored ss w Hne Hss) as Hstored. fold kept in Hstored.
  unfold startup, loadHistory, localStorage_getItem. simpl.
  rewrite Hstored. apply truthy_true in Hprint. rewrite Hprint, Hround.
  done.
Qed.

(** X6. Showing a history item twice is showing it once; showing it, going
    home and showing it again gives the state of the first showing with the
    error emptied.  Showing changes neither the history nor the storage and
    makes no request. *)
Theorem view_item_reproducible (w : World) (item : TranslationResult) :
  let shown := handleViewHistoryItem item w in
  handleViewHistoryItem item shown = shown
  ∧ handleViewHistoryItem item (handleGoHome shown) = setError [] shown
  ∧ result (handleViewHistoryItem item (handleGoHome shown)) = Some item
  ∧ translationHistory shown = translationHistory w
  ∧ localStorage shown = localStorage w
  ∧ calls (handleViewHistoryItem item (handleGoHome shown)) = calls w.
Proof. intros shown. subst shown. destruct_world w. repeat split. Qed.

(** X7. [handleTranslate] never touches the chat: on the validation path, on
    failure and on success the session, the messages, the panel flag and the
    chat box are as before, and so is the draft. *)
Theorem translate_leaves_chat (w : World) (now1 now2 : Z)
    (response : Outcome jsstring) :
  let w' := handleTranslate now1 now2 response w in
  chatRef w' = chatRef w ∧ chatHistory w' = chatHistory w
  ∧ isChatOpen w' = isChatOpen w ∧ chatInput w' = chatInput w
  ∧ inputText w' = inputText w.
Proof.
  intros w'. subst w'.
  destruct (decide (trim (inputText w) = [])) as [Hblank|Hvalid].
  - unfold handleTranslate. rewrite handleTranslate_start_blank by done.
    by destruct_world w.
  - destruct (parsedResponse response) as [parsedResult|] eqn:Hparsed.
    + destruct response as [response_text|]; [|done]. simpl in Hparsed.
      rewrite (handleTranslate_success _ _ _ _ parsedResult) by done.
      by destruct_world w.
    + rewrite handleTranslate_failure by done. by destruct_world w.
Qed.


(** ** Chat *)

(** X8. When the guard of line 185 lets a message through and the call
    succeeds, the messages end with the user's message followed by the
    reply; the request carries the text as typed, the chat box is emptied,
    the session is kept and the busy flag is down. *)
Theorem send_success_appends_reply (w : World) (response_text : jsstring) :
  handleSendMessage_ignores w = false →
  let w' := handleSendMessage (Fulfilled response_text) w in
  chatHistory w' =
    chatHistory w ++ [ {| role := user; text := chatInput w |};
                       {| role := model; text := response_text |} ]
  ∧ (∃ chat, chatRef w = Some chat
             ∧ calls w' = calls w ++ [SendMessage chat (chatInput w)])
  ∧ chatInput w' = []
  ∧ chatRef w' = chatRef w
  ∧ isLoading w' = false.
Proof.
  intros Hpass w'. subst w'.
  pose proof Hpass as Hstate.
  apply handleSendMessage_ignores_false in Hstate as (_ & _ & [chat Hchat]).
  rewrite (handleSendMessage_sends w chat) by done.
  destruct_world w. simpl in Hchat. subst ref.
  unfold andThen, handleSendMessage_settle, andThen. simpl.
  rewrite <- app_assoc. simpl.
  split; [done|]. split; [by exists chat|]. done.
Qed.

Lemma handleSendMessage_ignored (w : World) (response : Outcome jsstring) :
  handleSendMessage_ignores w = true → handleSendMessage response w = w.
Proof.
  intros Hignored. unfold handleSendMessage, handleSendMessage_start.
  by rewrite Hignored.
Qed.

Lemma exchange_turn (turn : jsstring * Outcome jsstring) (w : World)
    (chat : Chat) :
  chatRef w = Some chat → isLoading w = false →
  let w' := exchange turn w in
  chatHistory w' = chatHistory w ++ transcript turn
  ∧ calls w' = calls w ++ requests chat turn
  ∧ chatRef w' = Some chat ∧ isLoading w' = false.
Proof.
  intros Hchat Hidle w'. subst w'. destruct turn as [typed response].
  unfold exchange, andThen, transcript, requests. simpl.
  destruct (truthy (trim typed)) eqn:Htyped.
  - rewrite (handleSendMessage_sends _ chat).
    + destruct_world w. simpl in *. subst.
      unfold andThen, handleSendMessage_settle, andThen.
      destruct response; simpl; rewrite <- app_assoc; done.
    + apply handleSendMessage_ignores_false. destruct_world w. simpl in *.
      subst. split; [by apply truthy_true|]. by eauto.
    + by destruct_world w.
  - rewrite handleSendMessage_ignored.
    + destruct_world w. simpl in *. by rewrite !app_nil_r.
    + unfold handleSendMessage_ignores. destruct_world w. simpl.
      by rewrite Htyped.
Qed.

(** X9. Over any sequence of turns in an idle session, the messages grow by
    the turns' messages in order (the user's text, then the reply or the
    fallback), a turn of blanks adding nothing; one request goes out per
    other turn, in order, to the same session. *)
Theorem conversation_appends_in_order
    (turns : list (jsstring * Outcome jsstring)) (w : World) (chat : Chat) :
  chatRef w = Some chat → isLoading w = false →
  let w' := converse turns w in
  chatHistory w' = chatHistory w ++ concat (transcript <$> turns)
  ∧ calls w' = calls w ++ concat (requests chat <$> turns)
  ∧ chatRef w' = Some chat ∧ isLoading w' = false.
Proof.
  revert w. induction turns as [|turn turns IH]; intros w Hchat Hidle.
  - simpl. by rewrite !app_nil_r.
  - destruct (exchange_turn turn w chat Hchat Hidle)
      as (Hlog & Hsent & Hchat' & Hidle').
    destruct (IH (exchange turn w) Hchat' Hidle')
      as (Hlogs & Hsents & Hchat'' & Hidle'').
    unfold converse in *. simpl.
    rewrite Hlogs, Hsents, Hlog, Hsent, <- !app_assoc. done.
Qed.

(** X10. After a history item is shown no session is reused: opening the
    chat creates a session configured from that item, sends the seed prompt
    once and leaves its reply (or the fallback) as the only message. *)
Theorem switching_item_starts_fresh_session (w : World)
    (item : TranslationResult) (response : Outcome jsstring) :
  let shown := handleViewHistoryItem item w in
  let w' := handleStartChat (Fulfilled ()) response shown in
  handleStartChat_reuses shown = false
  ∧ chatRef w' = Some (chatConfig (Some item))
  ∧ chatHistory w' =
      [ match response with
        | Fulfilled response_text => {| role := model; text := response_text |}
        | Rejected => {| role := model; text := MSG_CHAT_START_FAILED |}
        end ]
  ∧ calls w' = calls w ++ [ChatsCreate (chatConfig (Some item));
                           SendMessage (chatConfig (Some item)) firstPrompt]
  ∧ isChatOpen w' = true ∧ isLoading w' = false.
Proof.
  intros shown w'. subst shown w'.
  assert (handleStartChat_reuses (handleViewHistoryItem item w) = false)
    as Hfresh by (by destruct_world w).
  rewrite handleStartChat_created by done.
  destruct_world w.
  unfold andThen, handleStartChat_settle, handleStartChat_catch, andThen.
  destruct response; simpl; rewrite <- app_assoc; done.
Qed.


(** ** The page in every reachable state *)

Lemma step_consistent (e : Event) (s s' : System) :
  consistent (core (page s)) → step e s = Some s' →
  consistent (core (page s')).
Proof.
  destruct s as [[w it] pend]. destruct_world w.
  unfold consistent, step. simpl. intros Hinv Hstep.
  destruct e; unfold_handlers; simpl in *;
    repeat case_match; simplify_eq; simpl in *;
    try done; try (by eauto); try (destruct Hinv as (? & ? & ?); by eauto).
Qed.

Lemma steps_consistent (es : list Event) (s s' : System) :
  consistent (core (page s)) → steps es s = Some s' →
  consistent (core (page s')).
Proof.
  revert s. induction es as [|e es IH]; intros s Hinv Hrun; simpl in Hrun.
  - by injection Hrun as <-.
  - destruct (step e s) as [s1|] eqn:Hstep; [|done].
    apply (IH s1); [|done]. by apply (step_consistent e s).
Qed.

Lemma startup_consistent (storage : gmap jsstring jsstring) :
  consistent (startup storage).
Proof.
  unfold startup, loadHistory, localStorage_getItem, consistent. simpl.
  repeat case_match; done.
Qed.

(** X11. In every state the page can reach, with promises settling in any
    order: when the result page is shown there is a result for it, and when
    the home page is shown there is no result, no chat session and no open
    panel. *)
Theorem result_page_always_has_result (storage : gmap jsstring jsstring)
    (s : System) :
  reachable storage s →
  let w := core (page s) in
  (view w = result_view → is_Some (result w))
  ∧ (view w = home →
     result w = None ∧ chatRef w = None ∧ isChatOpen w = false).
Proof.
  intros [es Hrun] w. subst w.
  pose proof (steps_consistent es (boot (startup storage)) s
                (startup_consistent storage) Hrun) as Hinv.
  unfold consistent in Hinv. destruct (view (core (page s))); split; done.
Qed.

Lemma step_history (w0 : World) (e : Event) (s s' : System) :
  history_kept w0 (core (page s)) → step e s = Some s' →
  history_kept w0 (core (page s')).
Proof.
  destruct s as [[w it] pend]. destruct_world w.
  unfold history_kept, stored_in_step, step. simpl. intros [Hlen Hst] Hstep.
  destruct e; unfold_handlers; simpl in *;
    repeat case_match; simplify_eq; simpl in *;
    try (split; [done|done]).
  all: try (split; [intros _; simpl; lia|]).
  all: try (right; left; split; [done|apply lookup_delete_eq]).
  all: try (split; [intros _; rewrite length_take; lia|
                    right; right; apply lookup_insert_eq]).
Qed.

Lemma steps_history (w0 : World) (es : list Event) (s s' : System) :
  history_kept w0 (core (page s)) → steps es s = Some s' →
  history_kept w0 (core (page s')).
Proof.
  revert s. induction es as [|e es IH]; intros s Hinv Hrun; simpl in Hrun.
  - by injection Hrun as <-.
  - destruct (step e s) as [s1|] eqn:Hstep; [|done].
    apply (IH s1); [|done]. by apply (step_history w0 e s).
Qed.

(** X12. In every state the page can reach the history is no longer than 50
    if the loaded one was not; and the history and the storage are as loaded,
    or the history is empty and its key absent, or the stored text is the
    print of the history. *)
Theorem history_kept_in_every_state (storage : gmap jsstring jsstring)
    (s : System) :
  reachable storage s →
  let loaded := startup storage in
  let w := core (page s) in
  ((length (translationHistory loaded) ≤ 50)%nat →
   (length (translationHistory w) ≤ 50)%nat)
  ∧ ((translationHistory w = translationHistory loaded
      ∧ localStorage w = localStorage loaded)
     ∨ (translationHistory w = [] ∧ localStorage w !! HISTORY_KEY = None)
     ∨ localStorage w !! HISTORY_KEY
       = Some (JSON_stringify (translationHistory w))).
Proof.
  intros [es Hrun] loaded w. subst loaded w.
  apply (steps_history (startup storage) es (boot (startup storage)) s);
    [|done].
  split; [done|]. by left.
Qed.

Lemma step_settled (e : Event) (s s' : System) :
  settled s → step e s = Some s' → settled s'.
Proof.
  destruct s as [[w it] pend]. destruct_world w.
  unfold settled, step. simpl. intros Hinv Hstep.
  destruct e; unfold_handlers; simpl in *;
    repeat case_match; simplify_eq; simpl in *;
    try done; try (rewrite app_nil_r; done);
    try (intros Hnone; by apply app_eq_nil in Hnone as [_ ?]).
Qed.

Lemma steps_settled (es : list Event) (s s' : System) :
  settled s → steps es s = Some s' → settled s'.
Proof.
  revert s. induction es as [|e es IH]; intros s Hinv Hrun; simpl in Hrun.
  - by injection Hrun as <-.
  - destruct (step e s) as [s1|] eqn:Hstep; [|done].
    apply (IH s1); [|done]. by apply (step_settled e s).
Qed.

(** X13. In every state the page can reach, the busy flag is down whenever
    no promise is awaited: the controls are never left disabled. *)
Theorem busy_only_while_awaiting (storage : gmap jsstring jsstring)
    (s : System) :
  reachable storage s →
  pending s = [] →
  isLoading (core (page s)) = false.
Proof.
  intros [es Hrun].
  apply (steps_settled es (boot (startup storage)) s); [|done].
  intros _. unfold startup, loadHistory, localStorage_getItem. simpl.
  by repeat case_match.
Qed.


(** ** Promises that settle late *)

(** X14. A translation that settles late does not reset the chat.  From the
    idle home page: translate, open a history item while the call is
    awaited, open its chat, let the seed settle, then the translation.  The
    page offers every step, and shows the new result with the open chat of
    the history item: its session and its messages. *)
Theorem late_translation_keeps_older_chat (s : System) (index : nat)
    (item parsedResult : TranslationResult)
    (greeting response_text : jsstring) (now1 now2 : Z) :
  let w := core (page s) in
  view w = home → isLoading w = false →
  isUploadingFile (intake (page s)) = false → pending s = [] →
  trim (inputText w) ≠ [] →
  translationHistory w !! index = Some item →
  JSON_parse_result response_text = Some parsedResult →
  ∃ s' : System,
    steps [ClickTranslate; ClickHistoryItem index;
           ClickStartChat (Fulfilled ());
           Settle 1 0 0 (Fulfilled greeting);
           Settle 0 now1 now2 (Fulfilled response_text)] s = Some s'
    ∧ view (core (page s')) = result_view
    ∧ result (core (page s'))
      = Some (newResult parsedResult (inputText w) now1 now2)
    ∧ isChatOpen (core (page s')) = true
    ∧ chatRef (core (page s')) = Some (chatConfig (Some item))
    ∧ chatHistory (core (page s')) = [ {| role := model; text := greeting |} ]
    ∧ pending s' = [].
Proof.
  destruct s as [[w it] pend]. destruct_world w.
  cbn [core page intake pending view isLoading inputText translationHistory
       chatRef isChatOpen chatInput calls].
  intros -> -> Hidle -> Hvalid Hitem Hparse.
  assert (truthy inp = true) as Htyped.
  { apply truthy_true. intros ->. by apply Hvalid. }
  apply truthy_true in Hvalid.
  eexists. split.
  - take_step ltac:(rewrite Hidle, Htyped, Hvalid).
    take_step ltac:(rewrite Hitem).
    take_step idtac.
    take_step idtac.
    take_step ltac:(rewrite Hparse).
    reflexivity.
  - simpl. done.
Qed.

(** X15. A reply that settles after the session was replaced lands in the
    new one.  From an idle chat: submit, go home while the call is awaited,
    open a history item and its chat, let the seed settle, then the reply.
    The page offers every step; the messages of the new session end with the
    reply to the question asked in the old one. *)
Theorem late_reply_lands_in_next_session (s : System) (index : nat)
    (item : TranslationResult) (chat : Chat) (greeting reply : jsstring) :
  let w := core (page s) in
  view w = result_view → isChatOpen w = true → isLoading w = false →
  chatRef w = Some chat → trim (chatInput w) ≠ [] → pending s = [] →
  translationHistory w !! index = Some item →
  ∃ s' : System,
    steps [SubmitChat; ClickGoHome; ClickHistoryItem index;
           ClickStartChat (Fulfilled ());
           Settle 1 0 0 (Fulfilled greeting);
           Settle 0 0 0 (Fulfilled reply)] s = Some s'
    ∧ result (core (page s')) = Some item
    ∧ chatRef (core (page s')) = Some (chatConfig (Some item))
    ∧ chatHistory (core (page s'))
      = [ {| role := model; text := greeting |};
          {| role := model; text := reply |} ]
    ∧ calls (core (page s'))
      = calls w ++ [SendMessage chat (chatInput w);
                    ChatsCreate (chatConfig (Some item));
                    SendMessage (chatConfig (Some item)) firstPrompt].
Proof.
  destruct s as [[w it] pend]. destruct_world w.
  cbn [core page intake pending view isLoading inputText translationHistory
       chatRef isChatOpen chatInput calls].
  intros -> -> -> -> Hvalid -> Hitem.
  assert (truthy cin = true) as Htyped.
  { apply truthy_true. intros ->. by apply Hvalid. }
  apply truthy_true in Hvalid.
  eexists. split.
  - take_step ltac:(unfold handleSendMessage_ignores; simpl;
                    rewrite Htyped, Hvalid).
    take_step idtac.
    take_step ltac:(rewrite Hitem).
    take_step idtac.
    take_step idtac.
    take_step idtac.
    reflexivity.
  - simpl. rewrite <- !app_assoc. done.
Qed.

(** X16. A text of blanks passes the test of the button and is stopped by
    the handler.  On the home page the click on the translate button sets the
    validation message and sends nothing; in the chat the submission leaves
    the whole page as it was, the text still in the box. *)
Theorem blank_text_passes_the_button (s : System) :
  let w := core (page s) in
  (view w = home → isLoading w = false →
   isUploadingFile (intake (page s)) = false →
   inputText w ≠ [] → trim (inputText w) = [] →
   step ClickTranslate s
   = Some (with_app s (setError MSG_EMPTY_INPUT w) []))
  ∧ (view w = result_view → isChatOpen w = true → isLoading w = false →
     chatInput w ≠ [] → trim (chatInput w) = [] →
     step SubmitChat s = Some s).
Proof.
  destruct s as [[w it] pend]. destruct_world w.
  cbn [core page intake pending view isLoading inputText chatInput isChatOpen].
  split.
  - intros -> -> Hidle Htyped Hblank.
    apply truthy_true in Htyped. apply truthy_false in Hblank.
    unfold step, handleTranslate_start, when, isHome. simpl.
    by rewrite Hidle, Htyped, Hblank.
  - intros -> -> -> Htyped Hblank.
    apply truthy_true in Htyped. apply truthy_false in Hblank.
    unfold step, handleSendMessage_start, handleSendMessage_ignores, when,
      isHome, with_app. simpl.
    by rewrite Htyped, Hblank, app_nil_r.
Qed.

End Coverage.

(** ** File intake *)

(** X17. [handleFileChange] checks the type before the size: a file that is
    not a PDF gets the type message whatever its size, a PDF above
    10485760 bytes the size message, and in both cases only the error
    changes; a PDF of up to 10485760 bytes, the bound included, is selected
    with the upload running on the given timer and the error emptied.
    Without a file nothing changes. *)
Theorem file_validation (p : Page) (file : File) (timer : positive) :
  let p' := handleFileChange (Some file) timer p in
  (file_type file ≠ PDF_TYPE → p' = in_app (setError MSG_NOT_PDF) p)
  ∧ (file_type file = PDF_TYPE → (10485760 < file_size file)%N →
     p' = in_app (setError MSG_TOO_LARGE) p)
  ∧ (file_type file = PDF_TYPE → (file_size file ≤ 10485760)%N →
     selectedFile (intake p') = Some file
     ∧ isUploadingFile (intake p') = true
     ∧ uploadIntervalRef (intake p') = Some timer
     ∧ timer ∈ intervals (intake p')
     ∧ error (core p') = [])
  ∧ handleFileChange None timer p = p.
Proof.
  intros p'. subst p'. unfold handleFileChange.
  split; [|split; [|split; [|done]]].
  - intros Htype. by rewrite bool_decide_eq_false_2.
  - intros Htype Hsize. rewrite bool_decide_eq_true_2 by done. simpl.
    replace (SIZE_LIMIT <? file_size file)%N with true; [done|].
    symmetry. apply N.ltb_lt. exact Hsize.
  - intros Htype Hsize. rewrite bool_decide_eq_true_2 by done. simpl.
    replace (SIZE_LIMIT <? file_size file)%N with false.
    + simpl. repeat split. set_solver.
    + symmetry. apply N.ltb_ge. exact Hsize.
Qed.

(** X18. The upload handlers change nothing of the session controller but,
    in [handleFileChange], the error; and [handleCancelUpload] leaves no
    upload shown, no file selected and the timer it knew no longer running. *)
Theorem upload_leaves_translation_state (p : Page) (files : option File)
    (timer : positive) (random : float) :
  setError [] (core (handleFileChange files timer p)) = setError [] (core p)
  ∧ core (uploadTick random p) = core p
  ∧ core (uploadFinished p) = core p
  ∧ core (handleCancelUpload p) = core p
  ∧ (let p' := handleCancelUpload p in
     isUploadingFile (intake p') = false
     ∧ selectedFile (intake p') = None
     ∧ uploadIntervalRef (intake p') = None
     ∧ ∀ i, uploadIntervalRef (intake p) = Some i →
            i ∉ intervals (intake p')).
Proof.
  destruct p as [w it]. destruct w. split; [|split; [|split; [|split]]].
  - unfold handleFileChange. destruct files as [file|]; [|done].
    simpl. by repeat case_match.
  - unfold uploadTick. simpl. by repeat case_match.
  - done.
  - unfold handleCancelUpload. simpl. by case_match.
  - unfold handleCancelUpload. simpl. split; [done|]. split; [done|].
    split; [done|]. intros i ->. simpl.
    apply not_elem_of_difference. right. by apply elem_of_singleton.
Qed.


(** * Examples for the rest of the page *)

(** Example for X1: the sample reply. *)
Lemma bold_markdown_round_trip_example :
  ∃ nodes : list Node,
    parseBoldMarkdown Demo.reply = Some nodes
    ∧ joinWith BOLD_MARK (nodeText <$> nodes) = Demo.reply.
Proof.
  destruct (parseBoldMarkdown Demo.reply) as [nodes|] eqn:Hnodes.
  - exists nodes. split; [reflexivity|].
    destruct (bold_markdown_round_trip Demo.reply) as [_ Hsome].
    destruct (Hsome nodes Hnodes) as [Hjoin _]. exact Hjoin.
  - exfalso. revert Hnodes. vm_compute. discriminate.
Defined.

(** Example for X2: the part left open at the end of the sample reply is
    bold. *)
Lemma bold_markdown_alternates_example :
  ∃ (nodes : list Node) (n : Node),
    parseBoldMarkdown Demo.reply = Some nodes
    ∧ nodes !! 3%nat = Some n
    ∧ (if Nat.odd 3 then n = Strong 3 (nodeText n)
       else n = PlainText (nodeText n)).
Proof.
  destruct (parseBoldMarkdown Demo.reply) as [nodes|] eqn:Hnodes.
  - destruct (nodes !! 3%nat) as [n|] eqn:Hn.
    + exists nodes, n. split; [reflexivity|]. split; [exact Hn|].
      destruct (bold_markdown_alternates Demo.reply nodes 3 n Hnodes Hn)
        as [Hkind _]. exact Hkind.
    + exfalso. revert Hnodes Hn. vm_compute. intros [= <-]. discriminate.
  - exfalso. revert Hnodes. vm_compute. discriminate.
Defined.

(** Example for X5: one translation, then a reload. *)
Lemma history_survives_reload_example :
  translationHistory
    (@startup Demo.exact_json
       (localStorage (@run Demo.exact_json [Sample.submission 0] (initial ∅))))
  = translationHistory (@run Demo.exact_json [Sample.submission 0] (initial ∅)).
Proof.
  destruct (@history_survives_reload Demo.exact_json [Sample.submission 0]
              (initial ∅)) as [Hsame _].
  - discriminate.
  - apply Forall_singleton. split.
    + vm_compute. discriminate.
    + exists Sample.parsed. vm_compute. reflexivity.
  - vm_compute. discriminate.
  - vm_compute. reflexivity.
  - exact Hsame.
Defined.

(** Example for X8: a reply in the sample session. *)
Lemma send_success_appends_reply_example :
  chatInput (handleSendMessage (Fulfilled (utf16 "Cerca de um ano."))
               Sample.chatting) = [].
Proof.
  destruct (send_success_appends_reply Sample.chatting
              (utf16 "Cerca de um ano.")) as (_ & _ & Hbox & _).
  - vm_compute. reflexivity.
  - exact Hbox.
Defined.

(** Example for X9: three turns in the sample session, one of blanks. *)
Lemma conversation_appends_in_order_example :
  chatHistory (converse Demo.turns Sample.chatting)
  = chatHistory Sample.chatting ++ concat (transcript <$> Demo.turns).
Proof.
  destruct (conversation_appends_in_order Demo.turns Sample.chatting
              Sample.session) as (Hlog & _).
  - reflexivity.
  - reflexivity.
  - exact Hlog.
Defined.

(** Example for X11: the sample visit ends on the result page. *)
Lemma result_page_always_has_result_example :
  ∃ s : System,
    @steps Sample.json Demo.visit (boot (@startup Sample.json ∅)) = Some s
    ∧ is_Some (result (core (page s))).
Proof.
  destruct (@steps Sample.json Demo.visit (boot (@startup Sample.json ∅)))
    as [s|] eqn:Hrun.
  - exists s. split; [reflexivity|].
    apply (@result_page_always_has_result Sample.json ∅ s).
    + exists Demo.visit. exact Hrun.
    + revert Hrun. vm_compute. intros [= <-]. reflexivity.
  - exfalso. revert Hrun. vm_compute. discriminate.
Defined.

(** Example for X12: the history after the sample visit. *)
Lemma history_kept_in_every_state_example :
  ∃ s : System,
    @steps Sample.json Demo.visit (boot (@startup Sample.json ∅)) = Some s
    ∧ (length (translationHistory (core (page s))) ≤ 50)%nat.
Proof.
  destruct (@steps Sample.json Demo.visit (boot (@startup Sample.json ∅)))
    as [s|] eqn:Hrun.
  - exists s. split; [reflexivity|].
    apply (@history_kept_in_every_state Sample.json ∅ s).
    + exists Demo.visit. exact Hrun.
    + vm_compute. lia.
  - exfalso. revert Hrun. vm_compute. discriminate.
Defined.

(** Example for X13: nothing is awaited after the sample visit. *)
Lemma busy_only_while_awaiting_example :
  ∃ s : System,
    @steps Sample.json Demo.visit (boot (@startup Sample.json ∅)) = Some s
    ∧ isLoading (core (page s)) = false.
Proof.
  destruct (@steps Sample.json Demo.visit (boot (@startup Sample.json ∅)))
    as [s|] eqn:Hrun.
  - exists s. split; [reflexivity|].
    apply (@busy_only_while_awaiting Sample.json ∅ s).
    + exists Demo.visit. exact Hrun.
    + revert Hrun. vm_compute. intros [= <-]. reflexivity.
  - exfalso. revert Hrun. vm_compute. discriminate.
Defined.

(** Example for X14: on the sample home page. *)
Lemma late_translation_keeps_older_chat_example :
  ∃ s' : System,
    @steps Sample.json
      [ClickTranslate; ClickHistoryItem 0; ClickStartChat (Fulfilled ());
       Settle 1 0 0 (Fulfilled (utf16 "Posso ajudar?"));
       Settle 0 1730000000001 1730000000002 (Fulfilled Sample.response_text)]
      Demo.returning = Some s'
    ∧ chatRef (core (page s')) = Some (chatConfig (Some Sample.item)).
Proof.
  destruct (@late_translation_keeps_older_chat Sample.json Demo.returning 0
              Sample.item Sample.parsed (utf16 "Posso ajudar?")
              Sample.response_text 1730000000001 1730000000002)
    as (s' & Hrun & _ & _ & _ & Hchat & _).
  - reflexivity.
  - reflexivity.
  - reflexivity.
  - reflexivity.
  - vm_compute. discriminate.
  - vm_compute. reflexivity.
  - vm_compute. reflexivity.
  - exists s'. split; [exact Hrun|exact Hchat].
Defined.

(** Example for X15: in the sample session. *)
Lemma late_reply_lands_in_next_session_example :
  ∃ s' : System,
    @steps Sample.json
      [SubmitChat; ClickGoHome; ClickHistoryItem 0;
       ClickStartChat (Fulfilled ());
       Settle 1 0 0 (Fulfilled (utf16 "Posso ajudar?"));
       Settle 0 0 0 (Fulfilled (utf16 "Cerca de um ano."))]
      Demo.asking = Some s'
    ∧ chatHistory (core (page s'))
      = [ {| role := model; text := utf16 "Posso ajudar?" |};
          {| role := model; text := utf16 "Cerca de um ano." |} ].
Proof.
  destruct (@late_reply_lands_in_next_session Sample.json Demo.asking 0
              Sample.item Sample.session (utf16 "Posso ajudar?")
              (utf16 "Cerca de um ano."))
    as (s' & Hrun & _ & _ & Hlog & _).
  - reflexivity.
  - reflexivity.
  - reflexivity.
  - reflexivity.
  - vm_compute. discriminate.
  - reflexivity.
  - reflexivity.
  - exists s'. split; [exact Hrun|exact Hlog].
Defined.

(** Example for X16: three blanks on the home page. *)
Lemma blank_text_passes_the_button_example :
  @step Sample.json ClickTranslate Demo.blank_draft
  = Some (with_app Demo.blank_draft
            (setError MSG_EMPTY_INPUT (core (page Demo.blank_draft))) []).
Proof.
  destruct (@blank_text_passes_the_button Sample.json Demo.blank_draft)
    as [Hhome _].
  apply Hhome.
  - reflexivity.
  - reflexivity.
  - reflexivity.
  - vm_compute. discriminate.
  - vm_compute. reflexivity.
Defined.

(** Example for X17: a PDF of exactly the size limit is taken. *)
Lemma file_validation_example :
  isUploadingFile
    (intake (handleFileChange (Some Demo.pdf) 1 (page Demo.blank_draft)))
  = true.
Proof.
  destruct (file_validation (page Demo.blank_draft) Demo.pdf 1)
    as (_ & _ & Haccepted & _).
  destruct Haccepted as (_ & Hrunning & _).
  - reflexivity.
  - vm_compute. discriminate.
  - exact Hrunning.
Defined.
